(** * go-money: a currency-aware Money type over integer minor units

    Shallow embedding of the packages [money] (money.go, format.go,
    currency.go, errors.go) and [internal/calc] (calc.go, percent.go,
    round.go), followed by the properties of the specification.

    Go data is kept as the code has it: [int64], [int32] and [uint64] values
    are integers of [Z] with the wrap-around of Go's arithmetic written out,
    Go strings are byte strings ([string]), a Go [(T, error)] result is a
    [result], a Go [(T, bool)] result is an [option]. *)

From Stdlib Require Import ZArith Bool List String Ascii Lia.
From Stdlib Require DecimalString.
Import ListNotations.

Local Open Scope Z_scope.

(** ** Machine integers *)

Module Int.

Definition MaxInt64 : Z := 9223372036854775807.
Definition MinInt64 : Z := -9223372036854775808.

(** Truncation of an integer to [int64] (two's complement). *)
Definition wrap64 (x : Z) : Z :=
  (x + 9223372036854775808) mod 18446744073709551616 - 9223372036854775808.

(** Truncation of an integer to [uint64]. *)
Definition wrapu64 (x : Z) : Z := x mod 18446744073709551616.

Definition in_int64 (x : Z) : Prop := MinInt64 <= x <= MaxInt64.

End Int.
Import Int.

(** ** Results of fallible functions *)

Inductive result (E A : Type) : Type :=
| Ok (a : A)
| Err (e : E).
Arguments Ok {E A} a.
Arguments Err {E A} e.

Definition bind {E A B} (r : result E A) (k : A -> result E B) : result E B :=
  match r with
  | Ok a => k a
  | Err e => Err e
  end.

Definition map_err {E F A} (f : E -> F) (r : result E A) : result F A :=
  match r with
  | Ok a => Ok a
  | Err e => Err (f e)
  end.

Declare Scope result_scope.
Delimit Scope result_scope with result.
Notation "x <- e ;; k" := (bind e (fun x => k))
  (at level 61, e at next level, right associativity) : result_scope.
Local Open Scope result_scope.

(** ** The decimal engine *)

Module decimal.

(** Modelled from the spec: the decimal engine, package
    github.com/govalues/decimal, is a dependency of internal/calc whose
    source is not part of the repository.  The model follows the engine's
    published behaviour: a decimal is a sign, a coefficient of at most
    [MaxPrec] = 19 decimal digits and a scale between 0 and [MaxScale] = 19;
    it denotes [(-1)^neg * coef / 10^scale].  Operations are exact where the
    result fits the coefficient, round half to even where digits have to be
    dropped, and report an invalid scale, an overflow of the coefficient and
    a division by zero as failures.  Every definition of this module belongs
    to that model. *)
Record Decimal : Type := mkDecimal {
  neg : bool;
  coef : Z;
  scale : Z
}.

Inductive error : Type :=
| errInvalidScale
| errCoefficientOverflow
| errDecimalOverflow
| errDivisionByZero
| errInexactDivision.

Definition MaxPrec : Z := 19.
Definition MinScale : Z := 0.
Definition MaxScale : Z := 19.
Definition maxFint : Z := 9999999999999999999.
Definition maxCoef : Z := maxFint.

Definition pow10 (n : Z) : Z := 10 ^ n.

(** *** Coefficients that fit 19 digits ([fint]) *)

Definition fint_add (x y : Z) : option Z :=
  if maxFint - x <? y then None else Some (x + y).

Definition fint_mul (x y : Z) : option Z :=
  if (x =? 0) || (y =? 0) then Some 0
  else if x * y >? maxFint then None else Some (x * y).

Definition fint_lsh (x shift : Z) : option Z :=
  if x =? 0 then Some 0
  else if shift <=? 0 then Some x
  else if shift >=? 20 then None
  else fint_mul x (pow10 shift).

(** Division by a power of ten, rounding half to even.  The same function
    serves the arbitrary-precision coefficients below. *)
Definition rshHalfEven (x shift : Z) : Z :=
  if x =? 0 then 0
  else if shift <=? 0 then x
  else
    let y := pow10 shift in
    let z := x / y in
    let r := x - z * y in
    let h := y / 2 in
    if (h <? r) || ((h =? r) && Z.odd z) then z + 1 else z.

Definition fint_rshHalfEven (x shift : Z) : Z :=
  if x =? 0 then 0
  else if shift <=? 0 then x
  else if shift >=? 20 then 0
  else rshHalfEven x shift.

Definition fint_quo (x y : Z) : option Z :=
  if y =? 0 then None
  else if x mod y =? 0 then Some (x / y) else None.

Definition fint_quoRem (x y : Z) : option (Z * Z) :=
  if y =? 0 then None else Some (x / y, x mod y).

(** Number of decimal digits of a coefficient; 0 has none. *)
Fixpoint prec_fuel (fuel : nat) (x : Z) : Z :=
  match fuel with
  | O => 0
  | S n => if x <=? 0 then 0 else 1 + prec_fuel n (x / 10)
  end.

Definition prec (x : Z) : Z := prec_fuel (S (Z.to_nat (Z.log2 x))) x.

(** *** Construction *)

Definition newUnsafe (n : bool) (c s : Z) : Decimal :=
  mkDecimal (if c =? 0 then false else n) c s.

Definition newSafe (n : bool) (c s : Z) : result error Decimal :=
  if (s <? MinScale) || (s >? MaxScale) then Err errInvalidScale
  else if c >? maxCoef then Err errCoefficientOverflow
  else Ok (newUnsafe n c s).

Definition newFromFint (n : bool) (c s minScale : Z) : result error Decimal :=
  if s <? minScale then
    match fint_lsh c (minScale - s) with
    | None => Err errDecimalOverflow
    | Some c' => newSafe n c' minScale
    end
  else if s >? MaxScale then
    newSafe n (fint_rshHalfEven c (s - MaxScale)) MaxScale
  else newSafe n c s.

(** Normalisation of an arbitrary-precision coefficient: digits beyond the
    19th are rounded away, as long as [minScale] fractional digits remain.
    A rounding step can carry into a 20th digit, in which case the
    normalisation is repeated ([fuel] bounds the repetitions; two suffice). *)
Fixpoint newFromBint_fuel (fuel : nat) (n : bool) (c s minScale : Z)
  : result error Decimal :=
  let p := prec c in
  if p - s >? MaxPrec - minScale then Err errDecimalOverflow
  else
    let '(c1, s1) :=
      if s <? minScale then (c * pow10 (minScale - s), minScale)
      else if (s >=? p) && (s >? MaxScale) then
        (rshHalfEven c (s - MaxScale), MaxScale)
      else if (p >? s) && (p >? MaxPrec) then
        (rshHalfEven c (p - MaxPrec), MaxPrec - p + s)
      else (c, s) in
    if prec c1 >? MaxPrec then
      match fuel with
      | O => Err errDecimalOverflow
      | S fuel' => newFromBint_fuel fuel' n c1 s1 minScale
      end
    else newSafe n c1 s1.

Definition newFromBint (n : bool) (c s minScale : Z) : result error Decimal :=
  newFromBint_fuel 2 n c s minScale.

(** [decimal.New(value, scale)]: the decimal [value / 10^scale]. *)
Definition New (value s : Z) : result error Decimal :=
  if value >=? 0 then newSafe false value s
  else if value =? MinInt64 then newSafe true (MaxInt64 + 1) s
  else newSafe true (- value) s.

Definition Scale (d : Decimal) : Z := scale d.
Definition Neg (d : Decimal) : Decimal := newUnsafe (negb (neg d)) (coef d) (scale d).

(** The signed coefficient. *)
Definition signed (d : Decimal) : Z := if neg d then - coef d else coef d.

(** *** Comparison: three-way, on the exact values *)

Definition Cmp (d e : Decimal) : Z :=
  match (signed d * pow10 (scale e)) ?= (signed e * pow10 (scale d)) with
  | Lt => -1
  | Eq => 0
  | Gt => 1
  end.

(** *** Addition and subtraction *)

(** Both coefficients brought to the larger of the two scales. *)
Definition aligned (d e : Decimal) : Z * Z * Z :=
  if scale d >? scale e then (coef d, coef e * pow10 (scale d - scale e), scale d)
  else if scale d <? scale e then (coef d * pow10 (scale e - scale d), coef e, scale e)
  else (coef d, coef e, scale d).

Definition addFint (d e : Decimal) (minScale : Z) : result error Decimal :=
  let '(dc, ec, s) := aligned d e in
  if (dc >? maxFint) || (ec >? maxFint) then Err errDecimalOverflow
  else if negb (Bool.eqb (neg d) (neg e)) then
    if dc >? ec then newFromFint (neg d) (dc - ec) s minScale
    else newFromFint (neg e) (ec - dc) s minScale
  else
    match fint_add dc ec with
    | None => Err errDecimalOverflow
    | Some c => newFromFint (neg d) c s minScale
    end.

Definition addBint (d e : Decimal) (minScale : Z) : result error Decimal :=
  let '(dc, ec, s) := aligned d e in
  if negb (Bool.eqb (neg d) (neg e)) then
    if dc >? ec then newFromBint (neg d) (dc - ec) s minScale
    else newFromBint (neg e) (ec - dc) s minScale
  else newFromBint (neg d) (dc + ec) s minScale.

Definition AddExact (d e : Decimal) (s : Z) : result error Decimal :=
  if (s <? MinScale) || (s >? MaxScale) then Err errInvalidScale
  else
    match addFint d e s with
    | Ok f => Ok f
    | Err _ => addBint d e s
    end.

Definition Add (d e : Decimal) : result error Decimal := AddExact d e 0.
Definition Sub (d e : Decimal) : result error Decimal := AddExact d (Neg e) 0.

(** *** Multiplication keeping [s] significant fractional digits *)

Definition mulFint (d e : Decimal) (minScale : Z) : result error Decimal :=
  match fint_mul (coef d) (coef e) with
  | None => Err errDecimalOverflow
  | Some c =>
      newFromFint (negb (Bool.eqb (neg d) (neg e))) c (scale d + scale e) minScale
  end.

Definition mulBint (d e : Decimal) (minScale : Z) : result error Decimal :=
  newFromBint (negb (Bool.eqb (neg d) (neg e))) (coef d * coef e)
    (scale d + scale e) minScale.

Definition MulExact (d e : Decimal) (s : Z) : result error Decimal :=
  if (s <? MinScale) || (s >? MaxScale) then Err errInvalidScale
  else
    match mulFint d e s with
    | Ok f => Ok f
    | Err _ => mulBint d e s
    end.

(** *** Rounding to a number of fractional digits, half to even *)

Definition Round (d : Decimal) (s : Z) : Decimal :=
  let s := Z.max s MinScale in
  if s >=? scale d then d
  else newUnsafe (neg d) (fint_rshHalfEven (coef d) (scale d - s)) s.

(** Removal of trailing fractional zeros, keeping at least [s] digits. *)
Fixpoint trim_fuel (fuel : nat) (c sc s : Z) : Z * Z :=
  match fuel with
  | O => (c, sc)
  | S n =>
      if (sc >? s) && (c mod 10 =? 0) then trim_fuel n (c / 10) (sc - 1) s
      else (c, sc)
  end.

Definition Trim (d : Decimal) (s : Z) : Decimal :=
  if scale d <=? s then d
  else
    let s := Z.max s MinScale in
    let '(c, sc) := trim_fuel (Z.to_nat (scale d)) (coef d) (scale d) s in
    newUnsafe (neg d) c sc.

(** *** Division keeping at least [s] fractional digits *)

Definition quoFint (d e : Decimal) (minScale : Z) : result error Decimal :=
  let s := scale d - scale e in
  let shift := MaxPrec - prec (coef d) in
  match (if shift >? 0 then fint_lsh (coef d) shift else Some (coef d)) with
  | None => Err errDecimalOverflow
  | Some dc =>
      let s := if shift >? 0 then s + shift else s in
      match (if s <? 0 then fint_lsh (coef e) (- s) else Some (coef e)) with
      | None => Err errDecimalOverflow
      | Some ec =>
          let s := if s <? 0 then 0 else s in
          match fint_quo dc ec with
          | None => Err errInexactDivision
          | Some q => newFromFint (negb (Bool.eqb (neg d) (neg e))) q s minScale
          end
      end
  end.

Definition quoBint (d e : Decimal) (minScale : Z) : result error Decimal :=
  let s := scale d - scale e in
  let shift := 2 * MaxPrec - prec (coef d) in
  let dc := coef d * pow10 shift in
  let s := s + shift in
  let ec := if s <? 0 then coef e * pow10 (- s) else coef e in
  let s := if s <? 0 then 0 else s in
  newFromBint (negb (Bool.eqb (neg d) (neg e))) (dc / ec) s minScale.

Definition QuoExact (d e : Decimal) (s : Z) : result error Decimal :=
  if (s <? MinScale) || (s >? MaxScale) then Err errInvalidScale
  else if coef e =? 0 then Err errDivisionByZero
  else if coef d =? 0 then newSafe false 0 (Z.max s (scale d - scale e))
  else
    f <- match quoFint d e s with
         | Ok f => Ok f
         | Err _ => quoBint d e s
         end ;;
    Ok (Trim f (Z.max s (scale d - scale e))).

(** *** Whole and fractional parts as a pair of [int64] *)

Definition Int64 (d : Decimal) (s : Z) : option (Z * Z) :=
  if (s <? MinScale) || (s >? MaxScale) then None
  else
    let x := if s <? scale d then fint_rshHalfEven (coef d) (scale d - s) else coef d in
    let y := if s <? scale d then pow10 s else pow10 (scale d) in
    match fint_quoRem x y with
    | None => None
    | Some (q, r) =>
        match (if s >? scale d then fint_lsh r (s - scale d) else Some r) with
        | None => None
        | Some r =>
            if neg d then
              if (q >? - MinInt64) || (r >? - MinInt64) then None
              else Some (wrap64 (- wrap64 q), wrap64 (- wrap64 r))
            else
              if (q >? MaxInt64) || (r >? MaxInt64) then None
              else Some (wrap64 q, wrap64 r)
        end
    end.

End decimal.

(** ** Package internal/calc *)

Module calc.

(** The failures of the package: [errOverflow] of round.go, the
    "scale overflow" failure raised by [multiply], and failures handed up
    from the decimal engine. *)
Inductive error : Type :=
| errOverflow
| errScaleOverflow
| errDecimal (e : decimal.error).

Definition lift {A} (r : result decimal.error A) : result error A :=
  map_err errDecimal r.

(** *** round.go *)

(** [absInt64]: the absolute value as [uint64]. *)
Definition absInt64 (x : Z) : Z :=
  if x >=? 0 then wrapu64 x
  else if x =? MinInt64 then wrapu64 (wrapu64 MaxInt64 + 1)
  else wrapu64 (wrap64 (- x)).

(** [addInt64]: addition with overflow detection. *)
Definition addInt64 (a b : Z) : option Z :=
  if (b >? 0) && (a >? wrap64 (MaxInt64 - b)) then None
  else if (b <? 0) && (a <? wrap64 (MinInt64 - b)) then None
  else Some (wrap64 (a + b)).

(** The part of [mulInt64] after the special cases. *)
Definition mulInt64_general (a b : Z) : option Z :=
  let absA := absInt64 a in
  let absB := absInt64 b in
  if absA >? wrapu64 MaxInt64 / absB then None
  else
    let prod := wrap64 (wrapu64 (absA * absB)) in
    Some (if negb (Bool.eqb (a <? 0) (b <? 0)) then wrap64 (- prod) else prod).

(** [mulInt64]: multiplication with overflow detection. *)
Definition mulInt64 (a b : Z) : option Z :=
  if (a =? 0) || (b =? 0) then Some 0
  else if (a =? MinInt64) && (b =? 1) then Some MinInt64
  else if (a =? MinInt64) && (b =? -1) then None
  else if (b =? MinInt64) && (a =? 1) then Some MinInt64
  else if (b =? MinInt64) && (a =? -1) then None
  else mulInt64_general a b.

(** The loop of [pow10Int64], with [n] iterations left. *)
Fixpoint pow10_loop (n : nat) (v : Z) : option Z :=
  match n with
  | O => Some v
  | S n' => if v >? MaxInt64 / 10 then None else pow10_loop n' (wrap64 (v * 10))
  end.

(** [pow10Int64]: [10^scale] if it fits [int64]. *)
Definition pow10Int64 (scale : Z) : option Z :=
  if scale <? 0 then None else pow10_loop (Z.to_nat scale) 1.

(** [combineInt64]: [whole * 10^scale + frac], every step checked. *)
Definition combineInt64 (whole frac scale : Z) : result error Z :=
  if scale <? 0 then Err errOverflow
  else if scale =? 0 then Ok whole
  else
    match pow10Int64 scale with
    | None => Err errOverflow
    | Some factor =>
        match mulInt64 whole factor with
        | None => Err errOverflow
        | Some prod =>
            match addInt64 prod frac with
            | None => Err errOverflow
            | Some res => Ok res
            end
        end
    end.

Definition roundToMinor (d : decimal.Decimal) (scale : Z) : result error Z :=
  let rounded := decimal.Round d scale in
  match decimal.Int64 rounded scale with
  | None => Err errOverflow
  | Some (whole, frac) => combineInt64 whole frac scale
  end.

Definition Round (d : decimal.Decimal) (scale : Z) : result error Z :=
  roundToMinor d scale.

(** *** percent.go *)

Definition percentMultiplier (percent : Z) (add : bool)
  : result error decimal.Decimal :=
  let base := 100 in
  let base := if add then wrap64 (base + percent) else wrap64 (base - percent) in
  lift (decimal.New base 2).

(** *** calc.go *)

Record amount : Type := mkAmount { dec : decimal.Decimal }.

Definition newAmount (value scale : Z) : result error amount :=
  d <- lift (decimal.New value scale) ;;
  Ok (mkAmount d).

Definition add (a b : amount) : result error amount :=
  d <- lift (decimal.Add (dec a) (dec b)) ;;
  Ok (mkAmount d).

Definition sub (a b : amount) : result error amount :=
  d <- lift (decimal.Sub (dec a) (dec b)) ;;
  Ok (mkAmount d).

Definition multiply (a : amount) (mult : decimal.Decimal) : result error amount :=
  let scale := decimal.Scale (dec a) + decimal.Scale mult in
  if scale >? decimal.MaxScale then Err errScaleOverflow
  else
    d <- lift (decimal.MulExact (dec a) mult scale) ;;
    Ok (mkAmount d).

Definition divide (a : amount) (div : decimal.Decimal) (scale : Z)
  : result error amount :=
  d <- lift (decimal.QuoExact (dec a) div scale) ;;
  Ok (mkAmount d).

Definition addPercent (a : amount) (percent : Z) : result error amount :=
  mult <- percentMultiplier percent true ;;
  multiply a mult.

Definition subtractPercent (a : amount) (percent : Z) : result error amount :=
  mult <- percentMultiplier percent false ;;
  multiply a mult.

Definition Add (a b scale : Z) : result error Z :=
  da <- newAmount a scale ;;
  db <- newAmount b scale ;;
  sum <- add da db ;;
  Round (dec sum) scale.

Definition Sub (a b scale : Z) : result error Z :=
  da <- newAmount a scale ;;
  db <- newAmount b scale ;;
  diff <- sub da db ;;
  Round (dec diff) scale.

Definition AddPercent (value percent scale : Z) : result error Z :=
  da <- newAmount value scale ;;
  out <- addPercent da percent ;;
  Round (dec out) scale.

Definition SubtractPercent (value percent scale : Z) : result error Z :=
  da <- newAmount value scale ;;
  out <- subtractPercent da percent ;;
  Round (dec out) scale.

Definition Compare (a b scale : Z) : result error Z :=
  da <- newAmount a scale ;;
  db <- newAmount b scale ;;
  Ok (decimal.Cmp (dec da) (dec db)).

Definition Mul (value factor scale : Z) : result error Z :=
  da <- newAmount value scale ;;
  mult <- lift (decimal.New factor 0) ;;
  out <- multiply da mult ;;
  Round (dec out) scale.

Definition Div (value divisor scale : Z) : result error Z :=
  da <- newAmount value scale ;;
  div <- lift (decimal.New divisor 0) ;;
  out <- divide da div scale ;;
  Round (dec out) scale.

End calc.


(** ** Package money *)

Module money.

Local Open Scope string_scope.
Local Open Scope Z_scope.

(** *** currency.go, errors.go *)

Record Currency : Type := mkCurrency {
  Code : string;
  Scale : Z;
  Symbol : string
}.

Inductive error : Type :=
| ErrCurrencyMismatch
| ErrInvalidOperation.

(** *** Go library functions on strings *)

(** [strconv.FormatUint(x, 10)], and [strconv.FormatInt(x, 10)] for
    [x >= 0]: the decimal digits of [x], most significant first. *)
Definition digit (d : Z) : ascii := ascii_of_nat (48 + Z.to_nat d).

Fixpoint formatUint_fuel (fuel : nat) (x : Z) (acc : string) : string :=
  match fuel with
  | O => acc
  | S n =>
      let acc' := String (digit (x mod 10)) acc in
      if x / 10 =? 0 then acc' else formatUint_fuel n (x / 10) acc'
  end.

Definition FormatUint (x : Z) : string := formatUint_fuel 20 x "".

(** [len(s)]: the number of bytes. *)
Definition len (s : string) : Z := Z.of_nat (String.length s).

(** [s[i:j]] for [0 <= i <= j <= len(s)]. *)
Definition slice (s : string) (i j : Z) : string :=
  substring (Z.to_nat i) (Z.to_nat (j - i)) s.

(** [strings.Repeat(s, n)]. *)
Fixpoint repeat_nat (s : string) (n : nat) : string :=
  match n with
  | O => ""
  | S n' => s ++ repeat_nat s n'
  end.

Definition Repeat (s : string) (n : Z) : string := repeat_nat s (Z.to_nat n).

(** [utf8.RuneCountInString]: the width of the encoding that starts with
    byte [c] and is followed by the bytes [rest]; an invalid or short
    encoding has width 1. *)
Definition byte_in (lo hi : nat) (rest : list ascii) (i : nat) : bool :=
  match nth_error rest i with
  | Some c => (lo <=? nat_of_ascii c)%nat && (nat_of_ascii c <=? hi)%nat
  | None => false
  end.

Definition runeWidth (c : ascii) (rest : list ascii) : nat :=
  let n := nat_of_ascii c in
  let cont := byte_in 128 191 rest in
  if (n <? 194)%nat then 1%nat
  else if (n <? 224)%nat then (if cont 0%nat then 2 else 1)%nat
  else if (n <? 240)%nat then
    let first :=
      if (n =? 224)%nat then byte_in 160 191 rest 0
      else if (n =? 237)%nat then byte_in 128 159 rest 0
      else cont 0%nat in
    (if first && cont 1%nat then 3 else 1)%nat
  else if (n <? 245)%nat then
    let first :=
      if (n =? 240)%nat then byte_in 144 191 rest 0
      else if (n =? 244)%nat then byte_in 128 143 rest 0
      else cont 0%nat in
    (if first && cont 1%nat && cont 2%nat then 4 else 1)%nat
  else 1%nat.

Fixpoint runeCount_fuel (fuel : nat) (s : list ascii) : Z :=
  match fuel with
  | O => 0
  | S f =>
      match s with
      | [] => 0
      | c :: rest => 1 + runeCount_fuel f (skipn (runeWidth c rest - 1) rest)
      end
  end.

Definition RuneCountInString (s : string) : Z :=
  runeCount_fuel (String.length s) (list_ascii_of_string s).

(** *** money.go *)

Record Money : Type := mkMoney {
  amount : Z;
  currency : Currency
}.

Definition New (amount : Z) (currency : Currency) : Money := mkMoney amount currency.
Definition Zero (currency : Currency) : Money := mkMoney 0 currency.
Definition Amount (m : Money) : Z := amount m.

(** The zero value [Money{}] returned next to a failure is not kept: a
    failed operation is [Err]. *)
Definition invalid {A} (r : result calc.error A) : result error A :=
  map_err (fun _ => ErrInvalidOperation) r.

Definition sameCurrency (a b : Currency) : bool :=
  (Code a =? Code b)%string && (Scale a =? Scale b) && (Symbol a =? Symbol b)%string.

Definition Add (m x : Money) : result error Money :=
  if negb (sameCurrency (currency m) (currency x)) then Err ErrCurrencyMismatch
  else
    a <- invalid (calc.Add (amount m) (amount x) (Scale (currency m))) ;;
    Ok (mkMoney a (currency m)).

Definition Sub (m x : Money) : result error Money :=
  if negb (sameCurrency (currency m) (currency x)) then Err ErrCurrencyMismatch
  else
    a <- invalid (calc.Sub (amount m) (amount x) (Scale (currency m))) ;;
    Ok (mkMoney a (currency m)).

Definition AddPercent (m : Money) (percent : Z) : result error Money :=
  a <- invalid (calc.AddPercent (amount m) percent (Scale (currency m))) ;;
  Ok (mkMoney a (currency m)).

Definition SubtractPercent (m : Money) (percent : Z) : result error Money :=
  a <- invalid (calc.SubtractPercent (amount m) percent (Scale (currency m))) ;;
  Ok (mkMoney a (currency m)).

Definition Equal (m x : Money) : bool :=
  if negb (sameCurrency (currency m) (currency x)) then false
  else
    match calc.Compare (amount m) (amount x) (Scale (currency m)) with
    | Err _ => false
    | Ok cmp => cmp =? 0
    end.

Definition GreaterThan (m x : Money) : result error bool :=
  if negb (sameCurrency (currency m) (currency x)) then Err ErrCurrencyMismatch
  else
    cmp <- invalid (calc.Compare (amount m) (amount x) (Scale (currency m))) ;;
    Ok (cmp >? 0).

Definition LessThan (m x : Money) : result error bool :=
  if negb (sameCurrency (currency m) (currency x)) then Err ErrCurrencyMismatch
  else
    cmp <- invalid (calc.Compare (amount m) (amount x) (Scale (currency m))) ;;
    Ok (cmp <? 0).

Definition IsZero (m : Money) : bool := amount m =? 0.
Definition IsPositive (m : Money) : bool := amount m >? 0.
Definition IsNegative (m : Money) : bool := amount m <? 0.

Definition signPrefix (amount : Z) : string :=
  if amount <? 0 then "-" else "".

Definition absInt64String (amount : Z) : string :=
  if amount >=? 0 then FormatUint amount
  else if amount =? MinInt64 then FormatUint (wrapu64 (wrapu64 MaxInt64 + 1))
  else FormatUint (wrap64 (- amount)).

(** *** format.go *)

Definition SymbolPrefix : Z := 0.
Definition SymbolSuffix : Z := 1.

Definition SymbolUseCurrencySymbol : Z := 0.
Definition SymbolUseCurrencyCode : Z := 1.
Definition SymbolUseCustom : Z := 2.

Record FormatConfig : Type := mkFormatConfig {
  DecimalSeparator : string;
  ThousandsSeparator : string;
  SymbolPosition : Z;
  SymbolKind : Z;
  CustomSymbol : string;
  Space : bool
}.

(** The process-wide configuration [formatConfig] holds one [FormatConfig];
    [init] stores the default.  Functions that read or replace it take the
    store as an argument and return the new one. *)
Definition store : Type := FormatConfig.

Definition init : store :=
  mkFormatConfig "." "" SymbolPrefix SymbolUseCurrencySymbol "" false.

Definition validateFormat (cfg : FormatConfig) : option error :=
  if (DecimalSeparator cfg =? "")%string then Some ErrInvalidOperation
  else if negb (RuneCountInString (DecimalSeparator cfg) =? 1) then
    Some ErrInvalidOperation
  else if negb (ThousandsSeparator cfg =? "")%string
          && negb (RuneCountInString (ThousandsSeparator cfg) =? 1) then
    Some ErrInvalidOperation
  else if negb (ThousandsSeparator cfg =? "")%string
          && (ThousandsSeparator cfg =? DecimalSeparator cfg)%string then
    Some ErrInvalidOperation
  else if (SymbolKind cfg =? SymbolUseCustom) && (CustomSymbol cfg =? "")%string then
    Some ErrInvalidOperation
  else if negb ((SymbolPosition cfg =? SymbolPrefix)
                || (SymbolPosition cfg =? SymbolSuffix)) then
    Some ErrInvalidOperation
  else if negb ((SymbolKind cfg =? SymbolUseCurrencySymbol)
                || (SymbolKind cfg =? SymbolUseCurrencyCode)
                || (SymbolKind cfg =? SymbolUseCustom)) then
    Some ErrInvalidOperation
  else None.

Definition SetFormat (cfg : FormatConfig) (st : store) : store * option error :=
  match validateFormat cfg with
  | Some err => (st, Some err)
  | None => (cfg, None)
  end.

Definition DefaultFormat (st : store) : FormatConfig := st.

Definition splitAmount (absDigits : string) (scale : Z) : string * string :=
  if scale <=? 0 then (absDigits, "")
  else
    let scaleInt := scale in
    let absDigits :=
      if len absDigits <=? scaleInt
      then Repeat "0" (scaleInt - len absDigits + 1) ++ absDigits
      else absDigits in
    (slice absDigits 0 (len absDigits - scaleInt),
     slice absDigits (len absDigits - scaleInt) (len absDigits)).

(** The loop of [groupThousands]: [rest] is [intPart[i:]], whose length is a
    multiple of 3. *)
Fixpoint group_loop (fuel : nat) (rest sep out : string) : string :=
  match fuel with
  | O => out
  | S n =>
      if len rest <=? 0 then out
      else group_loop n (slice rest 3 (len rest)) sep (out ++ sep ++ slice rest 0 3)
  end.

Definition groupThousands (intPart sep : string) : string :=
  if len intPart <=? 3 then intPart
  else
    let start := len intPart mod 3 in
    let start := if start =? 0 then 3 else start in
    group_loop (String.length intPart) (slice intPart start (len intPart)) sep
      (slice intPart 0 start).

Definition formatSymbol (currency : Currency) (cfg : FormatConfig)
  : result error string :=
  if SymbolKind cfg =? SymbolUseCurrencySymbol then Ok (Symbol currency)
  else if SymbolKind cfg =? SymbolUseCurrencyCode then Ok (Code currency)
  else if SymbolKind cfg =? SymbolUseCustom then
    if (CustomSymbol cfg =? "")%string then Err ErrInvalidOperation
    else Ok (CustomSymbol cfg)
  else Err ErrInvalidOperation.

(** The digits of the amount with separators, before sign and symbol. *)
Definition amountText (m : Money) (cfg : FormatConfig) : string :=
  let absDigits := absInt64String (amount m) in
  let '(intPart, fracPart) := splitAmount absDigits (Scale (currency m)) in
  let intPart :=
    if negb (ThousandsSeparator cfg =? "")%string
    then groupThousands intPart (ThousandsSeparator cfg)
    else intPart in
  if negb (fracPart =? "")%string
  then intPart ++ DecimalSeparator cfg ++ fracPart
  else intPart.

Definition formatWithConfig (m : Money) (cfg : FormatConfig) : result error string :=
  let amount_ := amountText m cfg in
  symbol <- formatSymbol (currency m) cfg ;;
  let sep := if Space cfg then " " else "" in
  let sep := if (symbol =? "")%string then "" else sep in
  if SymbolPosition cfg =? SymbolSuffix
  then Ok (signPrefix (amount m) ++ amount_ ++ sep ++ symbol)
  else Ok (signPrefix (amount m) ++ symbol ++ sep ++ amount_).

Definition Format (m : Money) (cfg : FormatConfig) : result error string :=
  match validateFormat cfg with
  | Some err => Err err
  | None => formatWithConfig m cfg
  end.

(** [Money.String]: rendering under the stored configuration. *)
Definition String_ (st : store) (m : Money) : string :=
  match formatWithConfig m (DefaultFormat st) with
  | Err _ => ""
  | Ok text => text
  end.

End money.


(** ** Notions used to state the properties *)

Import money.
Local Open Scope string_scope.
Local Open Scope Z_scope.

(** Membership in the [int64] range, as a test. *)
Definition in_int64b (x : Z) : bool := (MinInt64 <=? x) && (x <=? MaxInt64).

(** The decimal with signed coefficient [c] at scale [s]. *)
Definition of_signed (c s : Z) : decimal.Decimal :=
  decimal.mkDecimal (c <? 0) (Z.abs c) s.

(** The value of a decimal in minor units of its own scale. *)
Definition minor (n : bool) (c : Z) : Z := if n then - c else c.

(** The failure of an addition that leaves the [int64] range: it is found
    by the checked recombination, or already by the engine when a sum of
    more than 19 digits has no fractional digit to give up. *)
Definition add_failure (c s : Z) : calc.error :=
  if (s =? 0) && (decimal.maxFint <? Z.abs c)
  then calc.errDecimal decimal.errDecimalOverflow else calc.errOverflow.

(** A configuration breaks a validation rule of the specification: an empty
    or multi-character decimal separator, a multi-character thousands
    separator, a thousands separator identical to the decimal separator, the
    custom symbol kind with an empty custom symbol, an unrecognised position
    or kind. *)
Definition violates (cfg : FormatConfig) : Prop :=
  DecimalSeparator cfg = ""
  \/ RuneCountInString (DecimalSeparator cfg) > 1
  \/ RuneCountInString (ThousandsSeparator cfg) > 1
  \/ ThousandsSeparator cfg = DecimalSeparator cfg
  \/ (SymbolKind cfg = SymbolUseCustom /\ CustomSymbol cfg = "")
  \/ ~ (SymbolPosition cfg = SymbolPrefix \/ SymbolPosition cfg = SymbolSuffix)
  \/ ~ (SymbolKind cfg = SymbolUseCurrencySymbol
        \/ SymbolKind cfg = SymbolUseCurrencyCode
        \/ SymbolKind cfg = SymbolUseCustom).

(** The configuration passes [validateFormat]. *)
Definition passes (cfg : FormatConfig) : bool :=
  match validateFormat cfg with
  | None => true
  | Some _ => false
  end.

(** The store after a sequence of [SetFormat] calls, oldest first. *)
Definition run (cfgs : list FormatConfig) (st : store) : store :=
  fold_left (fun st cfg => fst (SetFormat cfg st)) cfgs st.

(** The number written by a string of decimal digits, read left to right
    from the value [acc] of the digits already seen. *)
Fixpoint parseUint_acc (s : string) (acc : Z) : Z :=
  match s with
  | EmptyString => acc
  | String c rest => parseUint_acc rest (acc * 10 + (Z.of_nat (nat_of_ascii c) - 48))
  end.

Definition parseUint (s : string) : Z := parseUint_acc s 0.

(** The byte is one of '0' .. '9'. *)
Definition is_digit (c : ascii) : bool :=
  ((48 <=? nat_of_ascii c) && (nat_of_ascii c <=? 57))%nat.

Fixpoint all_digits (s : string) : bool :=
  match s with
  | EmptyString => true
  | String c rest => is_digit c && all_digits rest
  end.

(** The three-way result of comparing two integers, as Go's [Cmp] gives it. *)
Definition three_way (a b : Z) : Z :=
  match a ?= b with
  | Lt => -1
  | Eq => 0
  | Gt => 1
  end.

(** [r] is [x / 100] rounded to the nearest integer, ties to the even one. *)
Definition nearest_hundredth (x r : Z) : Prop :=
  Z.abs (100 * r - x) <= 50 /\ (Z.abs (100 * r - x) = 50 -> Z.even r = true).

(** A scale at which [decimal.New] builds a decimal. *)
Definition engine_scale (s : Z) : bool := (0 <=? s) && (s <=? decimal.MaxScale).

Ltac int64_bounds := unfold in_int64, MinInt64, MaxInt64 in *.

(** * Properties *)

(** ** Machine integers *)

Lemma wrap64_id x : in_int64 x -> wrap64 x = x.
Proof.
  unfold in_int64, MinInt64, MaxInt64, wrap64. intros H.
  rewrite Z.mod_small; lia.
Qed.

Lemma wrapu64_id x : 0 <= x < 18446744073709551616 -> wrapu64 x = x.
Proof. intros H. unfold wrapu64. now rewrite Z.mod_small. Qed.

(** ** The checked primitives of round.go *)

Section CheckedPrimitives.

Import calc.

Lemma absInt64_abs x : in_int64 x -> absInt64 x = Z.abs x.
Proof.
  intros Hx. unfold absInt64.
  destruct (Z.geb_spec x 0).
  - rewrite wrapu64_id; int64_bounds; lia.
  - destruct (Z.eqb_spec x MinInt64) as [-> | Hne].
    + reflexivity.
    + rewrite wrap64_id by (int64_bounds; lia).
      rewrite wrapu64_id; int64_bounds; lia.
Qed.

Lemma addInt64_exact a b :
  in_int64 a -> in_int64 b ->
  addInt64 a b =
    if (MinInt64 <=? a + b) && (a + b <=? MaxInt64) then Some (a + b) else None.
Proof.
  intros Ha Hb. unfold addInt64.
  destruct (Z.gtb_spec b 0); cbn [andb].
  - rewrite (wrap64_id (MaxInt64 - b)) by (int64_bounds; lia).
    destruct (Z.gtb_spec a (MaxInt64 - b)).
    + destruct (Z.leb_spec (a + b) MaxInt64); [lia|].
      now rewrite andb_false_r.
    + destruct (Z.ltb_spec b 0); [lia|]. cbn [andb].
      destruct (Z.leb_spec MinInt64 (a + b)); [|int64_bounds; lia].
      destruct (Z.leb_spec (a + b) MaxInt64); [|lia].
      cbn. rewrite wrap64_id; [reflexivity | int64_bounds; lia].
  - destruct (Z.ltb_spec b 0); cbn [andb].
    + rewrite (wrap64_id (MinInt64 - b)) by (int64_bounds; lia).
      destruct (Z.ltb_spec a (MinInt64 - b)).
      * destruct (Z.leb_spec MinInt64 (a + b)); [lia|]. reflexivity.
      * destruct (Z.leb_spec MinInt64 (a + b)); [|lia].
        destruct (Z.leb_spec (a + b) MaxInt64); [|int64_bounds; lia].
        cbn. rewrite wrap64_id; [reflexivity | int64_bounds; lia].
    + assert (b = 0) as -> by lia. rewrite Z.add_0_r.
      destruct (Z.leb_spec MinInt64 a); [|int64_bounds; lia].
      destruct (Z.leb_spec a MaxInt64); [|int64_bounds; lia].
      cbn. now rewrite wrap64_id.
Qed.

(** After the special cases, [mulInt64] accepts a product exactly when its
    magnitude is at most [MaxInt64]. *)
Lemma mulInt64_general_exact a b :
  in_int64 a -> in_int64 b -> a <> 0 -> b <> 0 ->
  mulInt64_general a b =
    if Z.abs (a * b) <=? MaxInt64 then Some (a * b) else None.
Proof.
  intros Ha Hb Ha0 Hb0. unfold mulInt64_general.
  rewrite !absInt64_abs by assumption.
  rewrite (wrapu64_id MaxInt64) by (int64_bounds; lia).
  rewrite Z.abs_mul.
  assert (Hpos : 0 < Z.abs b) by lia.
  destruct (Z.gtb_spec (Z.abs a) (MaxInt64 / Z.abs b)) as [Hgt | Hle].
  - destruct (Z.leb_spec (Z.abs a * Z.abs b) MaxInt64) as [Hle | _]; [|reflexivity].
    exfalso. rewrite Z.mul_comm in Hle.
    apply (Z.div_le_lower_bound _ _ _ Hpos) in Hle. lia.
  - apply (Z.mul_le_mono_nonneg_r _ _ (Z.abs b)) in Hle; [|lia].
    pose proof (Z.mul_div_le MaxInt64 (Z.abs b) Hpos) as Hdiv.
    assert (Hprod : Z.abs a * Z.abs b <= MaxInt64) by lia.
    destruct (Z.leb_spec (Z.abs a * Z.abs b) MaxInt64); [|lia].
    assert (0 <= Z.abs a * Z.abs b) by lia.
    rewrite wrapu64_id by (int64_bounds; lia).
    rewrite (wrap64_id (Z.abs a * Z.abs b)) by (int64_bounds; lia).
    f_equal.
    destruct (Z.ltb_spec a 0); destruct (Z.ltb_spec b 0); cbn.
    + rewrite <- Z.abs_mul. apply Z.abs_eq. nia.
    + rewrite wrap64_id by (int64_bounds; lia).
      rewrite <- Z.abs_mul. rewrite Z.abs_neq; nia.
    + rewrite wrap64_id by (int64_bounds; lia).
      rewrite <- Z.abs_mul. rewrite Z.abs_neq; nia.
    + rewrite <- Z.abs_mul. apply Z.abs_eq. nia.
Qed.

End CheckedPrimitives.

Section Pow10.

Import calc.

Ltac scale_cases s H :=
  assert (s = 0 \/ s = 1 \/ s = 2 \/ s = 3 \/ s = 4 \/ s = 5 \/ s = 6 \/ s = 7
          \/ s = 8 \/ s = 9 \/ s = 10 \/ s = 11 \/ s = 12 \/ s = 13 \/ s = 14
          \/ s = 15 \/ s = 16 \/ s = 17 \/ s = 18) as H by lia.

Lemma pow10Int64_fits s : 0 <= s <= 18 -> pow10Int64 s = Some (10 ^ s).
Proof.
  intros Hs. scale_cases s Hc.
  repeat (destruct Hc as [-> | Hc]; [reflexivity|]). subst s. reflexivity.
Qed.

Lemma pow10_loop_overflow k : pow10_loop (19 + k) 1 = None.
Proof. reflexivity. Qed.

Lemma pow10Int64_overflow s : 18 < s -> pow10Int64 s = None.
Proof.
  intros Hs. unfold pow10Int64.
  destruct (Z.ltb_spec s 0); [lia|].
  replace (Z.to_nat s) with (19 + Z.to_nat (s - 19))%nat by lia.
  apply pow10_loop_overflow.
Qed.

Lemma pow10Int64_negative s : s < 0 -> pow10Int64 s = None.
Proof. intros Hs. unfold pow10Int64. now destruct (Z.ltb_spec s 0); [|lia]. Qed.

End Pow10.

(** ** C5: the minimum value in the checked multiply *)

(** C5, as stated, fails: "multiplying the minimum int64 value by any factor
    other than 1 is detected as overflow" does not hold for the factor 0,
    which [mulInt64] answers with the (correct) product 0. *)
Lemma mulInt64_MinInt64_zero_factor :
  ~ (forall b : Z, in_int64 b -> b <> 1 -> calc.mulInt64 MinInt64 b = None).
Proof.
  intros H. specialize (H 0).
  assert (calc.mulInt64 MinInt64 0 = Some 0) as E by reflexivity.
  rewrite H in E; [discriminate | int64_bounds; lia | lia].
Qed.

(** C5 (amended): [mulInt64] returns the minimum int64 value unchanged when
    it is multiplied by 1, returns 0 when it is multiplied by 0, and reports
    overflow for every other factor [b], -1 included, on either side; and
    [absInt64] of the minimum value is 2^63. *)
Theorem mulInt64_MinInt64 (b : Z) (Hb : in_int64 b) (H0 : b <> 0) (H1 : b <> 1) :
  calc.mulInt64 MinInt64 1 = Some MinInt64 /\
  calc.mulInt64 1 MinInt64 = Some MinInt64 /\
  calc.mulInt64 MinInt64 0 = Some 0 /\
  calc.mulInt64 MinInt64 (-1) = None /\
  calc.mulInt64 MinInt64 b = None /\
  calc.mulInt64 b MinInt64 = None /\
  calc.absInt64 MinInt64 = 2 ^ 63.
Proof.
  repeat split; try reflexivity.
  - unfold calc.mulInt64.
    destruct (Z.eqb_spec b 0); [contradiction|].
    destruct (Z.eqb_spec b 1); [contradiction|].
    cbn [Z.eqb MinInt64 orb andb].
    destruct (Z.eqb_spec b (-1)); [reflexivity|].
    destruct (Z.eqb_spec b MinInt64) as [-> | Hne]; cbn [andb].
    + reflexivity.
    + rewrite mulInt64_general_exact; try assumption; try (int64_bounds; lia).
      destruct (Z.leb_spec (Z.abs (MinInt64 * b)) MaxInt64); [|reflexivity].
      int64_bounds; lia.
  - unfold calc.mulInt64.
    destruct (Z.eqb_spec b 0); [contradiction|].
    cbn [Z.eqb MinInt64 orb andb].
    destruct (Z.eqb_spec b MinInt64) as [-> | Hne]; cbn [andb].
    + reflexivity.
    + destruct (Z.eqb_spec b 1); [contradiction|].
      destruct (Z.eqb_spec b (-1)); [reflexivity|].
      rewrite mulInt64_general_exact; try assumption; try (int64_bounds; lia).
      destruct (Z.leb_spec (Z.abs (b * MinInt64)) MaxInt64); [|reflexivity].
      int64_bounds; lia.
Qed.

Lemma mulInt64_MinInt64_witness :
  in_int64 2 /\ 2 <> 0 /\ 2 <> 1 /\ calc.mulInt64 MinInt64 2 = None.
Proof.
  assert (Hb : in_int64 2) by (unfold in_int64, MinInt64, MaxInt64; lia).
  assert (H0 : 2 <> 0) by lia.
  assert (H1 : 2 <> 1) by lia.
  split; [exact Hb|]. split; [exact H0|]. split; [exact H1|].
  apply (mulInt64_MinInt64 2 Hb H0 H1).
Defined.

(** ** The decimal engine on minor units *)

Section DecimalFacts.

Import decimal.

Lemma newSafe_ok n c s :
  0 <= s <= 19 -> c <= maxFint -> newSafe n c s = Ok (newUnsafe n c s).
Proof.
  intros Hs Hc. unfold newSafe, MinScale, MaxScale, maxCoef.
  destruct (Z.ltb_spec s 0); [lia|]. destruct (Z.gtb_spec s 19); [lia|].
  destruct (Z.gtb_spec c maxFint); [lia|]. reflexivity.
Qed.

Lemma newSafe_bad_scale n c s :
  s < 0 \/ 19 < s -> newSafe n c s = Err errInvalidScale.
Proof.
  intros Hs. unfold newSafe, MinScale, MaxScale.
  destruct (Z.ltb_spec s 0); [reflexivity|].
  destruct (Z.gtb_spec s 19); [reflexivity|lia].
Qed.

Lemma newUnsafe_signed n c s :
  0 <= c -> newUnsafe n c s = of_signed (if n then - c else c) s.
Proof.
  intros Hc. unfold newUnsafe, of_signed.
  destruct (Z.eqb_spec c 0) as [-> | Hne].
  - now destruct n.
  - destruct n.
    + destruct (Z.ltb_spec (- c) 0); [|lia]. f_equal. lia.
    + destruct (Z.ltb_spec c 0); [lia|]. f_equal. lia.
Qed.

Lemma New_ok v s :
  in_int64 v -> 0 <= s <= 19 -> New v s = Ok (of_signed v s).
Proof.
  intros Hv Hs. unfold New.
  destruct (Z.geb_spec v 0).
  - rewrite newSafe_ok by (unfold maxFint; int64_bounds; lia).
    now rewrite newUnsafe_signed by lia.
  - destruct (Z.eqb_spec v MinInt64) as [-> | Hne].
    + now rewrite newSafe_ok by (unfold maxFint; int64_bounds; lia).
    + rewrite newSafe_ok by (unfold maxFint; int64_bounds; lia).
      rewrite newUnsafe_signed by lia. now rewrite Z.opp_involutive.
Qed.

Lemma New_bad_scale v s :
  s < 0 \/ 19 < s -> New v s = Err errInvalidScale.
Proof.
  intros Hs. unfold New.
  destruct (v >=? 0); [|destruct (v =? MinInt64)]; now apply newSafe_bad_scale.
Qed.

Lemma Neg_of_signed c s : Neg (of_signed c s) = of_signed (- c) s.
Proof.
  unfold Neg, of_signed, newUnsafe; cbn.
  destruct (Z.eqb_spec (Z.abs c) 0).
  - assert (c = 0) as -> by lia. reflexivity.
  - rewrite Z.abs_opp. f_equal.
    destruct (Z.ltb_spec c 0); destruct (Z.ltb_spec (- c) 0); cbn; lia || reflexivity.
Qed.

(** *** Number of digits *)

Lemma prec_fuel_digits k : forall fuel x,
  (k < fuel)%nat -> 10 ^ Z.of_nat k <= x < 10 ^ Z.of_nat (S k) ->
  prec_fuel fuel x = Z.of_nat (S k).
Proof.
  induction k as [|k IH]; intros fuel x Hf Hx.
  - destruct fuel as [|fuel]; [lia|]. cbn [prec_fuel].
    change (10 ^ Z.of_nat 0) with 1 in Hx. change (10 ^ Z.of_nat 1) with 10 in Hx.
    destruct (Z.leb_spec x 0); [lia|].
    assert (x / 10 = 0) as -> by (apply Z.div_small; lia).
    destruct fuel; reflexivity.
  - destruct fuel as [|fuel]; [lia|]. cbn [prec_fuel].
    assert (Hp : 0 < 10 ^ Z.of_nat (S k)) by (apply Z.pow_pos_nonneg; lia).
    destruct (Z.leb_spec x 0); [lia|].
    rewrite (IH fuel (x / 10)); [lia | lia |].
    rewrite !Nat2Z.inj_succ, !Z.pow_succ_r in * by lia.
    split.
    + apply Z.div_le_lower_bound; lia.
    + apply Z.div_lt_upper_bound; lia.
Qed.

Lemma prec_digits k x :
  10 ^ Z.of_nat k <= x < 10 ^ Z.of_nat (S k) -> prec x = Z.of_nat (S k).
Proof.
  intros Hx. unfold prec. apply prec_fuel_digits; [|assumption].
  assert (Hp : 0 < 10 ^ Z.of_nat k) by (apply Z.pow_pos_nonneg; lia).
  assert (Z.of_nat k <= Z.log2 x); [|lia].
  apply Z.log2_le_pow2; [lia|].
  transitivity (10 ^ Z.of_nat k); [|lia].
  apply Z.pow_le_mono_l. lia.
Qed.

Lemma prec_20 x : 10 ^ 19 <= x < 10 ^ 20 -> prec x = 20.
Proof. intros H. apply (prec_digits 19 x). exact H. Qed.

Lemma prec_19 x : 10 ^ 18 <= x < 10 ^ 19 -> prec x = 19.
Proof. intros H. apply (prec_digits 18 x). exact H. Qed.

Lemma rshHalfEven_1_bounds x :
  10 ^ 19 <= x <= 2 ^ 64 ->
  10 ^ 18 <= rshHalfEven x 1 <= 1844674407370955162.
Proof.
  intros Hx. unfold rshHalfEven, pow10.
  change (10 ^ 19) with 10000000000000000000 in Hx.
  change (2 ^ 64) with 18446744073709551616 in Hx.
  change (10 ^ 18) with 1000000000000000000.
  destruct (Z.eqb_spec x 0); [lia|]. cbn [Z.leb Z.compare].
  change (10 ^ 1) with 10. change (10 / 2) with 5.
  destruct ((5 <? x - x / 10 * 10) || ((5 =? x - x / 10 * 10) && Z.odd (x / 10)));
    Z.div_mod_to_equations; lia.
Qed.

End DecimalFacts.

Section DecimalAdd.

Import decimal.

Lemma newFromBint_20_digits n c s :
  10 ^ 19 <= c <= 2 ^ 64 -> 0 <= s <= 19 ->
  newFromBint n c s 0 =
    if s =? 0 then Err errDecimalOverflow
    else Ok (mkDecimal n (rshHalfEven c 1) (s - 1)).
Proof.
  intros Hc Hs. pose proof (rshHalfEven_1_bounds _ Hc) as Hb1.
  change (10 ^ 19) with 10000000000000000000 in Hc.
  change (2 ^ 64) with 18446744073709551616 in Hc.
  change (10 ^ 18) with 1000000000000000000 in Hb1.
  unfold newFromBint. cbn [newFromBint_fuel].
  rewrite (prec_20 c) by (change (10 ^ 20) with 100000000000000000000;
                          change (10 ^ 19) with 10000000000000000000; lia).
  unfold MaxPrec, MaxScale. rewrite Z.sub_0_r.
  destruct (Z.eqb_spec s 0) as [-> | Hs0]; [reflexivity|].
  destruct (Z.gtb_spec (20 - s) 19); [lia|].
  destruct (Z.ltb_spec s 0); [lia|].
  destruct (Z.geb_spec s 20); [lia|]. cbn [andb].
  destruct (Z.gtb_spec 20 s); [|lia].
  change (20 >? 19) with true. cbv beta iota. cbn [andb].
  change (20 - 19) with 1.
  rewrite (prec_19 (rshHalfEven c 1))
    by (change (10 ^ 19) with 10000000000000000000;
        change (10 ^ 18) with 1000000000000000000; lia).
  change (19 >? 19) with false. cbv beta iota.
  rewrite newSafe_ok by (unfold maxFint; lia).
  unfold newUnsafe.
  destruct (Z.eqb_spec (rshHalfEven c 1) 0) as [E | _]; [lia|].
  f_equal. f_equal. lia.
Qed.

(** The sum of two decimals of one scale whose coefficients are magnitudes of
    [int64] values: exact while it fits 19 digits; beyond that the engine
    gives up a fractional digit and rounds, or fails when there is none. *)
Lemma Add_same_scale a b s :
  - 2 ^ 63 <= a <= 2 ^ 63 -> - 2 ^ 63 <= b <= 2 ^ 63 -> 0 <= s <= 19 ->
  Add (of_signed a s) (of_signed b s) =
    if Z.abs (a + b) <=? maxFint then Ok (of_signed (a + b) s)
    else if s =? 0 then Err errDecimalOverflow
    else Ok (mkDecimal (a <? 0) (rshHalfEven (Z.abs (a + b)) 1) (s - 1)).
Proof.
  intros Ha Hb Hs.
  change (2 ^ 63) with 9223372036854775808 in *.
  unfold Add, AddExact, MinScale, MaxScale. cbn [Z.ltb Z.gtb Z.compare orb].
  unfold addFint, addBint, aligned, of_signed. cbn [neg coef scale].
  rewrite Z.gtb_ltb, Z.ltb_irrefl.
  assert (Hfa : (Z.abs a >? maxFint) = false) by (unfold maxFint; lia).
  assert (Hfb : (Z.abs b >? maxFint) = false) by (unfold maxFint; lia).
  rewrite Hfa, Hfb. cbn [orb].
  assert (Hdiff : forall n c, 0 <= c -> c <= maxFint ->
            newFromFint n c s 0 = Ok (of_signed (if n then - c else c) s)).
  { intros n c Hc0 Hc. unfold newFromFint, MaxScale.
    destruct (Z.ltb_spec s 0); [lia|]. destruct (Z.gtb_spec s 19); [lia|].
    rewrite newSafe_ok by lia. now rewrite newUnsafe_signed. }
  assert (Hsame : (a < 0 <-> b < 0) ->
    match match fint_add (Z.abs a) (Z.abs b) with
          | Some c => newFromFint (a <? 0) c s 0
          | None => Err errDecimalOverflow
          end with
    | Ok f => Ok f
    | Err _ => newFromBint (a <? 0) (Z.abs a + Z.abs b) s 0
    end =
    if Z.abs (a + b) <=? maxFint then Ok (of_signed (a + b) s)
    else if s =? 0 then Err errDecimalOverflow
    else Ok (mkDecimal (a <? 0) (rshHalfEven (Z.abs (a + b)) 1) (s - 1))).
  { intros Hsign. unfold fint_add.
    assert (Hsum : Z.abs a + Z.abs b = Z.abs (a + b)) by lia. rewrite Hsum.
    destruct (Z.ltb_spec (maxFint - Z.abs a) (Z.abs b)) as [Hov | Hfit].
    - destruct (Z.leb_spec (Z.abs (a + b)) maxFint); [lia|].
      apply newFromBint_20_digits; [|assumption].
      change (10 ^ 19) with 10000000000000000000.
      change (2 ^ 64) with 18446744073709551616. unfold maxFint in *. lia.
    - destruct (Z.leb_spec (Z.abs (a + b)) maxFint); [|lia].
      rewrite Hdiff by lia. unfold of_signed. f_equal. f_equal.
      + destruct (Z.ltb_spec a 0); destruct (Z.ltb_spec (a + b) 0);
          destruct (Z.ltb_spec (Z.abs (a + b)) 0); try reflexivity; lia.
      + destruct (a <? 0); lia. }
  destruct (Z.ltb_spec a 0) as [Han | Hap]; destruct (Z.ltb_spec b 0) as [Hbn | Hbp];
    cbn [Bool.eqb negb].
  - destruct (Z.ltb_spec a 0); [|lia]. apply Hsame. lia.
  - (* a negative, b non-negative *)
    destruct (Z.leb_spec (Z.abs (a + b)) maxFint); [|unfold maxFint in *; lia].
    destruct (Z.gtb_spec (Z.abs a) (Z.abs b)).
    + rewrite Hdiff by (unfold maxFint; lia).
      replace (- (Z.abs a - Z.abs b)) with (a + b) by lia. reflexivity.
    + rewrite Hdiff by (unfold maxFint; lia).
      replace (Z.abs b - Z.abs a) with (a + b) by lia. reflexivity.
  - (* a non-negative, b negative *)
    destruct (Z.leb_spec (Z.abs (a + b)) maxFint); [|unfold maxFint in *; lia].
    destruct (Z.gtb_spec (Z.abs a) (Z.abs b)).
    + rewrite Hdiff by (unfold maxFint; lia).
      replace (Z.abs a - Z.abs b) with (a + b) by lia. reflexivity.
    + rewrite Hdiff by (unfold maxFint; lia).
      replace (- (Z.abs b - Z.abs a)) with (a + b) by lia. reflexivity.
  - destruct (Z.ltb_spec a 0); [lia|]. apply Hsame. lia.
Qed.

End DecimalAdd.

(** ** Rounding back to minor units *)

Section RoundToMinor.

Import decimal calc.

Lemma pow10_bounds s : 1 <= s <= 18 -> 10 <= 10 ^ s <= 1000000000000000000.
Proof.
  intros Hs. split.
  - change 10 with (10 ^ 1) at 1. apply Z.pow_le_mono_r; lia.
  - change 1000000000000000000 with (10 ^ 18). apply Z.pow_le_mono_r; lia.
Qed.

Lemma min_not_multiple s : 1 <= s <= 18 -> 9223372036854775808 mod 10 ^ s <> 0.
Proof.
  intros Hs.
  assert (s = 1 \/ s = 2 \/ s = 3 \/ s = 4 \/ s = 5 \/ s = 6 \/ s = 7 \/ s = 8
          \/ s = 9 \/ s = 10 \/ s = 11 \/ s = 12 \/ s = 13 \/ s = 14 \/ s = 15
          \/ s = 16 \/ s = 17 \/ s = 18) as Hc by lia.
  repeat (destruct Hc as [-> | Hc]; [now vm_compute|]). subst s. now vm_compute.
Qed.

Lemma mulInt64_pos_factor a t :
  in_int64 a -> 1 < t <= MaxInt64 ->
  mulInt64 a t = if Z.abs (a * t) <=? MaxInt64 then Some (a * t) else None.
Proof.
  intros Ha Ht. unfold mulInt64.
  destruct (Z.eqb_spec a 0) as [-> | Ha0]; [reflexivity|].
  destruct (Z.eqb_spec t 0); [lia|]. cbn [orb].
  destruct (Z.eqb_spec t 1); [lia|]. rewrite andb_false_r.
  destruct (Z.eqb_spec t (-1)); [lia|]. rewrite andb_false_r.
  destruct (Z.eqb_spec t MinInt64); [int64_bounds; lia|]. cbn [andb].
  apply mulInt64_general_exact; try assumption. int64_bounds; lia.
Qed.

Lemma combineInt64_checked whole frac s :
  in_int64 whole -> in_int64 frac -> 1 <= s <= 18 ->
  combineInt64 whole frac s =
    if (Z.abs (whole * 10 ^ s) <=? MaxInt64)
       && (MinInt64 <=? whole * 10 ^ s + frac)
       && (whole * 10 ^ s + frac <=? MaxInt64)
    then Ok (whole * 10 ^ s + frac) else Err errOverflow.
Proof.
  intros Hw Hf Hs. pose proof (pow10_bounds s Hs) as Ht.
  unfold combineInt64.
  destruct (Z.ltb_spec s 0); [lia|]. destruct (Z.eqb_spec s 0); [lia|].
  rewrite pow10Int64_fits by lia.
  rewrite mulInt64_pos_factor by (try assumption; int64_bounds; lia).
  destruct (Z.leb_spec (Z.abs (whole * 10 ^ s)) MaxInt64) as [Hp | Hp]; [|reflexivity].
  rewrite addInt64_exact by (try assumption; int64_bounds; lia).
  cbn [andb].
  now destruct ((MinInt64 <=? whole * 10 ^ s + frac)
                && (whole * 10 ^ s + frac <=? MaxInt64)).
Qed.

Lemma roundToMinor_scale_0 n c :
  0 <= c <= maxFint ->
  roundToMinor (mkDecimal n c 0) 0 =
    if (MinInt64 <=? minor n c) && (minor n c <=? MaxInt64)
    then Ok (minor n c) else Err errOverflow.
Proof.
  intros Hc. unfold maxFint in Hc.
  unfold roundToMinor, decimal.Round, Int64, combineInt64, MinScale, MaxScale.
  cbn [Z.max Z.compare Z.geb Z.ltb Z.gtb Z.eqb scale coef neg orb pow10 Z.pow fint_quoRem].
  rewrite Z.div_1_r, Z.mod_1_r. unfold minor.
  destruct n.
  - change (- MinInt64) with 9223372036854775808.
    change (0 >? 9223372036854775808) with false.
    destruct (Z.gtb_spec c 9223372036854775808) as [Hgt | Hle]; cbn [orb].
    + destruct (Z.leb_spec MinInt64 (- c)); [int64_bounds; lia | reflexivity].
    + destruct (Z.leb_spec MinInt64 (- c)); [|int64_bounds; lia].
      destruct (Z.leb_spec (- c) MaxInt64); [|int64_bounds; lia]. cbn [andb].
      f_equal. destruct (Z.eq_dec c 9223372036854775808) as [-> | Hne]; [reflexivity|].
      rewrite (wrap64_id c) by (int64_bounds; lia).
      apply wrap64_id. int64_bounds; lia.
  - change (0 >? MaxInt64) with false.
    destruct (Z.gtb_spec c MaxInt64) as [Hgt | Hle]; cbn [orb].
    + destruct (Z.leb_spec c MaxInt64); [lia|]. now rewrite andb_false_r.
    + destruct (Z.leb_spec MinInt64 c); [|int64_bounds; lia].
      destruct (Z.leb_spec c MaxInt64); [|lia]. cbn [andb].
      f_equal. apply wrap64_id. int64_bounds; lia.
Qed.

Lemma Int64_same_scale n c s :
  0 <= c <= maxFint -> 1 <= s <= 18 ->
  Int64 (mkDecimal n c s) s = Some (minor n (c / 10 ^ s), minor n (c mod 10 ^ s)).
Proof.
  intros Hc Hs. pose proof (pow10_bounds s Hs) as Ht. unfold maxFint in Hc.
  unfold Int64, MinScale, MaxScale. cbn [scale coef neg].
  destruct (Z.ltb_spec s 0); [lia|]. destruct (Z.gtb_spec s 19); [lia|]. cbn [orb].
  rewrite Z.ltb_irrefl, Z.gtb_ltb, Z.ltb_irrefl.
  unfold fint_quoRem, pow10.
  destruct (Z.eqb_spec (10 ^ s) 0); [lia|].
  assert (Hq : 0 <= c / 10 ^ s <= 999999999999999999).
  { split; [apply Z.div_pos; lia|].
    apply Z.lt_succ_r. apply Z.div_lt_upper_bound; lia. }
  assert (Hr : 0 <= c mod 10 ^ s < 10 ^ s) by (apply Z.mod_pos_bound; lia).
  unfold minor. destruct n.
  - change (- MinInt64) with 9223372036854775808.
    destruct (Z.gtb_spec (c / 10 ^ s) 9223372036854775808); [lia|].
    destruct (Z.gtb_spec (c mod 10 ^ s) 9223372036854775808); [lia|]. cbn [orb].
    rewrite (wrap64_id (c / 10 ^ s)), (wrap64_id (c mod 10 ^ s)) by (int64_bounds; lia).
    rewrite !wrap64_id by (int64_bounds; lia). reflexivity.
  - destruct (Z.gtb_spec (c / 10 ^ s) MaxInt64); [int64_bounds; lia|].
    destruct (Z.gtb_spec (c mod 10 ^ s) MaxInt64); [int64_bounds; lia|]. cbn [orb].
    rewrite !wrap64_id by (int64_bounds; lia). reflexivity.
Qed.

(** A decimal that already has the target scale is re-encoded exactly, or
    rejected when its minor units leave the [int64] range. *)
Lemma roundToMinor_same_scale n c s :
  0 <= c <= maxFint -> 0 <= s <= 18 ->
  roundToMinor (mkDecimal n c s) s =
    if (MinInt64 <=? minor n c) && (minor n c <=? MaxInt64)
    then Ok (minor n c) else Err errOverflow.
Proof.
  intros Hc Hs.
  destruct (Z.eq_dec s 0) as [-> | Hs0]; [now apply roundToMinor_scale_0|].
  assert (Hs1 : 1 <= s <= 18) by lia.
  pose proof (pow10_bounds s Hs1) as Ht. pose proof (min_not_multiple s Hs1) as Hm.
  unfold roundToMinor, decimal.Round, MinScale. cbn [scale].
  rewrite Z.max_l by lia. rewrite Z.geb_leb, Z.leb_refl.
  rewrite Int64_same_scale by assumption.
  unfold maxFint in Hc.
  assert (Hq : 0 <= c / 10 ^ s <= 999999999999999999).
  { split; [apply Z.div_pos; lia|].
    apply Z.lt_succ_r. apply Z.div_lt_upper_bound; lia. }
  assert (Hr : 0 <= c mod 10 ^ s < 10 ^ s) by (apply Z.mod_pos_bound; lia).
  pose proof (Z.div_mod c (10 ^ s) ltac:(lia)) as Hdm.
  assert (Hqt : 0 <= 10 ^ s * (c / 10 ^ s)) by (apply Z.mul_nonneg_nonneg; lia).
  rewrite combineInt64_checked
    by (try assumption; unfold minor; destruct n; int64_bounds; lia).
  unfold minor. destruct n.
  - replace (- (c / 10 ^ s) * 10 ^ s + - (c mod 10 ^ s)) with (- c) by lia.
    replace (Z.abs (- (c / 10 ^ s) * 10 ^ s)) with (10 ^ s * (c / 10 ^ s)) by lia.
    destruct (Z.leb_spec MinInt64 (- c)) as [Hin | Hout].
    + destruct (Z.leb_spec (- c) MaxInt64); [|int64_bounds; lia].
      destruct (Z.leb_spec (10 ^ s * (c / 10 ^ s)) MaxInt64); [reflexivity|].
      exfalso. unfold MinInt64, MaxInt64 in *.
      assert (c = 9223372036854775808 /\ c mod 10 ^ s = 0) as [-> E] by lia.
      contradiction.
    + now rewrite andb_false_r.
  - replace (c / 10 ^ s * 10 ^ s + c mod 10 ^ s) with c by lia.
    replace (Z.abs (c / 10 ^ s * 10 ^ s)) with (10 ^ s * (c / 10 ^ s)) by lia.
    destruct (Z.leb_spec c MaxInt64) as [Hin | Hout].
    + destruct (Z.leb_spec MinInt64 c); [|int64_bounds; lia].
      destruct (Z.leb_spec (10 ^ s * (c / 10 ^ s)) MaxInt64); [reflexivity|lia].
    + now rewrite !andb_false_r.
Qed.

(** After the engine has given up a fractional digit the value has 20 digits
    in minor units and never fits. *)
Lemma roundToMinor_shifted n c s :
  1000000000000000000 <= c <= maxFint -> 1 <= s <= 18 ->
  roundToMinor (mkDecimal n c (s - 1)) s = Err errOverflow.
Proof.
  intros Hc Hs. unfold maxFint in Hc.
  pose proof (pow10_bounds s Hs) as Ht.
  assert (Hpow : 10 ^ s = 10 * 10 ^ (s - 1)).
  { replace s with (Z.succ (s - 1)) at 1 by lia. apply Z.pow_succ_r. lia. }
  set (t := 10 ^ (s - 1)) in *.
  assert (Htp : 1 <= t <= 100000000000000000) by lia.
  unfold roundToMinor, decimal.Round, MinScale. cbn [scale].
  rewrite Z.max_l by lia.
  destruct (Z.geb_spec s (s - 1)); [|lia].
  unfold Int64, MinScale, MaxScale. cbn [scale coef neg].
  destruct (Z.ltb_spec s 0); [lia|]. destruct (Z.gtb_spec s 19); [lia|]. cbn [orb].
  destruct (Z.ltb_spec s (s - 1)); [lia|].
  destruct (Z.gtb_spec s (s - 1)); [|lia].
  unfold fint_quoRem, pow10. fold t.
  destruct (Z.eqb_spec t 0); [lia|].
  assert (Hq : 0 <= c / t <= c).
  { split; [apply Z.div_pos; lia|]. apply Z.div_le_upper_bound; nia. }
  assert (Hr : 0 <= c mod t < t) by (apply Z.mod_pos_bound; lia).
  pose proof (Z.div_mod c t ltac:(lia)) as Hdm.
  assert (Hqt : 0 <= t * (c / t)) by (apply Z.mul_nonneg_nonneg; lia).
  replace (s - (s - 1)) with 1 by lia.
  assert (Hlsh : fint_lsh (c mod t) 1 = Some (c mod t * 10)).
  { unfold fint_lsh, fint_mul, pow10, maxFint. change (10 ^ 1) with 10.
    destruct (Z.eqb_spec (c mod t) 0) as [-> | Hne]; [reflexivity|].
    cbn [Z.leb Z.geb Z.compare Z.eqb orb].
    destruct (Z.gtb_spec (c mod t * 10) 9999999999999999999); [lia|reflexivity]. }
  rewrite Hlsh.
  assert (Hbig : 10000000000000000000 <= 10 * (t * (c / t)) + c mod t * 10) by lia.
  assert (Hcomb : forall w f, in_int64 w -> in_int64 f ->
            (Z.abs (w * 10 ^ s) <=? MaxInt64) && (MinInt64 <=? w * 10 ^ s + f)
              && (w * 10 ^ s + f <=? MaxInt64) = false ->
            combineInt64 w f s = Err errOverflow).
  { intros w f Hw Hf E. now rewrite combineInt64_checked, E by assumption. }
  destruct n.
  - change (- MinInt64) with 9223372036854775808.
    destruct (Z.gtb_spec (c / t) 9223372036854775808); [reflexivity|].
    destruct (Z.gtb_spec (c mod t * 10) 9223372036854775808); [lia|]. cbn [orb].
    rewrite (wrap64_id (c mod t * 10)) by (int64_bounds; lia).
    destruct (Z.eq_dec (c / t) 9223372036854775808) as [E | Hq'].
    { rewrite E. change (wrap64 (- wrap64 9223372036854775808)) with MinInt64.
      rewrite wrap64_id by (int64_bounds; lia).
      apply Hcomb; rewrite ?Hpow; int64_bounds; lia. }
    rewrite (wrap64_id (c / t)) by (int64_bounds; lia).
    rewrite !wrap64_id by (int64_bounds; lia).
    apply Hcomb; rewrite ?Hpow; int64_bounds; lia.
  - destruct (Z.gtb_spec (c / t) MaxInt64); [reflexivity|].
    destruct (Z.gtb_spec (c mod t * 10) MaxInt64); [int64_bounds; lia|]. cbn [orb].
    rewrite !wrap64_id by (int64_bounds; lia).
    apply Hcomb; rewrite ?Hpow; int64_bounds; lia.
Qed.

(** No decimal can be re-encoded at a scale outside 0..18: the engine stops
    at 19 fractional digits and [10^19] does not fit [int64]. *)
Lemma roundToMinor_bad_scale d s :
  s < 0 \/ 18 < s -> roundToMinor d s = Err errOverflow.
Proof.
  intros Hs. unfold roundToMinor.
  destruct (Int64 (decimal.Round d s) s) as [[whole frac] |] eqn:E; [|reflexivity].
  unfold combineInt64.
  destruct (Z.ltb_spec s 0); [reflexivity|].
  destruct (Z.eqb_spec s 0); [lia|].
  now rewrite pow10Int64_overflow by lia.
Qed.

End RoundToMinor.

(** ** Addition and subtraction in package calc *)

Section CalcAddSub.

Import calc.

Lemma in_int64b_true x : in_int64b x = true <-> in_int64 x.
Proof. unfold in_int64b, in_int64. lia. Qed.

Lemma in_int64b_false x : in_int64b x = false <-> ~ in_int64 x.
Proof. unfold in_int64b, in_int64. lia. Qed.

Lemma minor_signed c : minor (c <? 0) (Z.abs c) = c.
Proof. unfold minor. destruct (Z.ltb_spec c 0); lia. Qed.

Lemma add_then_round a b s :
  - 2 ^ 63 <= a <= 2 ^ 63 -> - 2 ^ 63 <= b <= 2 ^ 63 -> 0 <= s <= 18 ->
  (d <- lift (decimal.Add (of_signed a s) (of_signed b s)) ;; Round d s) =
    if in_int64b (a + b) then Ok (a + b) else Err (add_failure (a + b) s).
Proof.
  intros Ha Hb Hs. rewrite Add_same_scale by (try assumption; lia).
  unfold add_failure, Round.
  change (2 ^ 63) with 9223372036854775808 in *.
  destruct (Z.leb_spec (Z.abs (a + b)) decimal.maxFint) as [Hfit | Hbig].
  - cbn [lift map_err bind]. unfold of_signed.
    rewrite roundToMinor_same_scale by lia.
    rewrite minor_signed. fold (in_int64b (a + b)).
    destruct (Z.ltb_spec decimal.maxFint (Z.abs (a + b))); [lia|].
    now rewrite andb_false_r.
  - assert (Hout : in_int64b (a + b) = false).
    { apply in_int64b_false. unfold decimal.maxFint in *. int64_bounds. lia. }
    rewrite Hout.
    destruct (Z.ltb_spec decimal.maxFint (Z.abs (a + b))); [|lia].
    destruct (Z.eqb_spec s 0) as [-> | Hs0]; [reflexivity|].
    cbn [lift map_err bind andb].
    rewrite roundToMinor_shifted; [reflexivity | | lia].
    assert (Hr : 10 ^ 19 <= Z.abs (a + b) <= 2 ^ 64).
    { change (10 ^ 19) with 10000000000000000000.
      change (2 ^ 64) with 18446744073709551616. unfold decimal.maxFint in *. lia. }
    pose proof (rshHalfEven_1_bounds _ Hr) as Hb1.
    change (10 ^ 18) with 1000000000000000000 in Hb1.
    unfold decimal.maxFint. lia.
Qed.

Lemma newAmount_ok v s :
  in_int64 v -> 0 <= s <= 19 -> newAmount v s = Ok (mkAmount (of_signed v s)).
Proof. intros Hv Hs. unfold newAmount. now rewrite New_ok. Qed.

Lemma newAmount_bad_scale v s :
  s < 0 \/ 19 < s -> newAmount v s = Err (errDecimal decimal.errInvalidScale).
Proof. intros Hs. unfold newAmount. now rewrite New_bad_scale. Qed.

Lemma Add_exact a b s :
  in_int64 a -> in_int64 b -> 0 <= s <= 18 ->
  Add a b s = if in_int64b (a + b) then Ok (a + b) else Err (add_failure (a + b) s).
Proof.
  intros Ha Hb Hs. unfold Add.
  rewrite !newAmount_ok by (try assumption; lia).
  cbn [bind]. unfold add. cbn [dec].
  rewrite <- add_then_round by (try assumption; int64_bounds; lia).
  now destruct (lift (decimal.Add (of_signed a s) (of_signed b s))).
Qed.

Lemma Sub_exact a b s :
  in_int64 a -> in_int64 b -> 0 <= s <= 18 ->
  Sub a b s = if in_int64b (a - b) then Ok (a - b) else Err (add_failure (a - b) s).
Proof.
  intros Ha Hb Hs. unfold Sub.
  rewrite !newAmount_ok by (try assumption; lia).
  cbn [bind]. unfold sub, decimal.Sub. cbn [dec].
  rewrite Neg_of_signed. fold (decimal.Add (of_signed a s) (of_signed (- b) s)).
  change (a - b) with (a + - b).
  rewrite <- add_then_round by (try assumption; int64_bounds; lia).
  now destruct (lift (decimal.Add (of_signed a s) (of_signed (- b) s))).
Qed.

(** Outside the scales 0..18 every addition and subtraction fails. *)
Lemma Add_bad_scale a b s :
  s < 0 \/ 18 < s -> exists e, Add a b s = Err e.
Proof.
  intros Hs. unfold Add.
  destruct (newAmount a s) as [da | e]; [|now exists e].
  destruct (newAmount b s) as [db | e]; [|now exists e].
  cbn [bind]. destruct (add da db) as [sum | e]; [|now exists e].
  cbn [bind]. unfold Round. rewrite roundToMinor_bad_scale by assumption.
  now exists errOverflow.
Qed.

Lemma Sub_bad_scale a b s :
  s < 0 \/ 18 < s -> exists e, Sub a b s = Err e.
Proof.
  intros Hs. unfold Sub.
  destruct (newAmount a s) as [da | e]; [|now exists e].
  destruct (newAmount b s) as [db | e]; [|now exists e].
  cbn [bind]. destruct (sub da db) as [diff | e]; [|now exists e].
  cbn [bind]. unfold Round. rewrite roundToMinor_bad_scale by assumption.
  now exists errOverflow.
Qed.

End CalcAddSub.

(** ** The Money facade *)

Section Facade.

Lemma sameCurrency_eq a b : sameCurrency a b = true <-> a = b.
Proof.
  unfold sameCurrency. destruct a as [c1 s1 y1], b as [c2 s2 y2]; cbn.
  rewrite !andb_true_iff, !String.eqb_eq, Z.eqb_eq.
  split; [intros [[-> ->] ->]; reflexivity | intros [= -> -> ->]; auto].
Qed.

Lemma sameCurrency_refl c : sameCurrency c c = true.
Proof. now apply sameCurrency_eq. Qed.

Lemma sameCurrency_differs a b :
  Code a <> Code b \/ Scale a <> Scale b \/ Symbol a <> Symbol b ->
  sameCurrency a b = false.
Proof.
  intros H. destruct (sameCurrency a b) eqn:E; [|reflexivity].
  apply sameCurrency_eq in E. subst b. destruct H as [H | [H | H]]; now elim H.
Qed.

Lemma Money_Add_exact a b c :
  in_int64 a -> in_int64 b -> 0 <= Scale c <= 18 ->
  Add (New a c) (New b c) =
    if in_int64b (a + b) then Ok (New (a + b) c) else Err ErrInvalidOperation.
Proof.
  intros Ha Hb Hs. unfold Add, New. cbn [currency amount].
  rewrite sameCurrency_refl. cbn [negb].
  rewrite Add_exact by assumption.
  now destruct (in_int64b (a + b)).
Qed.

Lemma Money_Sub_exact a b c :
  in_int64 a -> in_int64 b -> 0 <= Scale c <= 18 ->
  Sub (New a c) (New b c) =
    if in_int64b (a - b) then Ok (New (a - b) c) else Err ErrInvalidOperation.
Proof.
  intros Ha Hb Hs. unfold Sub, New. cbn [currency amount].
  rewrite sameCurrency_refl. cbn [negb].
  rewrite Sub_exact by assumption.
  now destruct (in_int64b (a - b)).
Qed.

Lemma Money_Add_bad_scale a b c :
  Scale c < 0 \/ 18 < Scale c -> Add (New a c) (New b c) = Err ErrInvalidOperation.
Proof.
  intros Hs. unfold Add, New. cbn [currency amount].
  rewrite sameCurrency_refl. cbn [negb].
  destruct (Add_bad_scale a b (Scale c) Hs) as [e ->]. reflexivity.
Qed.

Lemma Money_Sub_bad_scale a b c :
  Scale c < 0 \/ 18 < Scale c -> Sub (New a c) (New b c) = Err ErrInvalidOperation.
Proof.
  intros Hs. unfold Sub, New. cbn [currency amount].
  rewrite sameCurrency_refl. cbn [negb].
  destruct (Sub_bad_scale a b (Scale c) Hs) as [e ->]. reflexivity.
Qed.

End Facade.

(** ** C1: the percent example *)

(** C1: for the amount 19990 at scale 2, [SubtractPercent 10] returns 17991,
    [AddPercent 18] on that result returns 21229, and the final value renders
    under the default configuration, with the currency symbol "₺", as
    "₺212.29".  The currency code plays no part. *)
Theorem percent_example (code : string) :
  let try := mkCurrency code 2 "₺" in
  SubtractPercent (New 19990 try) 10 = Ok (New 17991 try) /\
  AddPercent (New 17991 try) 18 = Ok (New 21229 try) /\
  String_ init (New 21229 try) = "₺212.29".
Proof. cbv zeta. repeat split. Qed.

(** ** C2: the overflow boundary *)

(** C2, as stated, fails: with a currency of scale 19 the maximum amount plus
    a zero amount of the same currency is not returned unchanged but rejected,
    because [10^19] does not fit [int64]. *)
Lemma boundary_add_rejected_at_scale_19 :
  Add (New MaxInt64 (mkCurrency "XTS" 19 "x")) (Zero (mkCurrency "XTS" 19 "x"))
  = Err ErrInvalidOperation.
Proof. reflexivity. Qed.

(** C2 (amended): for two amounts of one currency, [Add] and [Sub] fail with
    [ErrInvalidOperation] whenever the exact sum, respectively difference,
    lies outside the [int64] range, at every scale; and when the currency's
    scale is between 0 and 18, the maximum and the minimum amount combined
    with a zero amount are returned unchanged. *)
Theorem overflow_boundary (a b : Z) (c : Currency)
  (Ha : in_int64 a) (Hb : in_int64 b) :
  (~ in_int64 (a + b) -> Add (New a c) (New b c) = Err ErrInvalidOperation) /\
  (~ in_int64 (a - b) -> Sub (New a c) (New b c) = Err ErrInvalidOperation) /\
  (0 <= Scale c <= 18 ->
     Add (New MaxInt64 c) (Zero c) = Ok (New MaxInt64 c) /\
     Add (Zero c) (New MaxInt64 c) = Ok (New MaxInt64 c) /\
     Sub (New MaxInt64 c) (Zero c) = Ok (New MaxInt64 c) /\
     Add (New MinInt64 c) (Zero c) = Ok (New MinInt64 c) /\
     Add (Zero c) (New MinInt64 c) = Ok (New MinInt64 c) /\
     Sub (New MinInt64 c) (Zero c) = Ok (New MinInt64 c)).
Proof.
  assert (Hscale : 0 <= Scale c <= 18 \/ (Scale c < 0 \/ 18 < Scale c)) by lia.
  split; [|split].
  - intros Hout. destruct Hscale as [Hs | Hs].
    + rewrite Money_Add_exact by assumption.
      apply in_int64b_false in Hout. now rewrite Hout.
    + now apply Money_Add_bad_scale.
  - intros Hout. destruct Hscale as [Hs | Hs].
    + rewrite Money_Sub_exact by assumption.
      apply in_int64b_false in Hout. now rewrite Hout.
    + now apply Money_Sub_bad_scale.
  - intros Hs. unfold Zero. fold (New 0 c).
    assert (H0 : in_int64 0) by (int64_bounds; lia).
    assert (Hmax : in_int64 MaxInt64) by (int64_bounds; lia).
    assert (Hmin : in_int64 MinInt64) by (int64_bounds; lia).
    rewrite !Money_Add_exact, !Money_Sub_exact by assumption.
    repeat split.
Qed.

Lemma overflow_boundary_witness :
  in_int64 MaxInt64 /\ in_int64 1 /\
  Add (New MaxInt64 (mkCurrency "USD" 2 "$")) (New 1 (mkCurrency "USD" 2 "$"))
    = Err ErrInvalidOperation /\
  Add (New MaxInt64 (mkCurrency "USD" 2 "$")) (Zero (mkCurrency "USD" 2 "$"))
    = Ok (New MaxInt64 (mkCurrency "USD" 2 "$")).
Proof.
  assert (Ha : in_int64 MaxInt64) by (unfold in_int64, MinInt64, MaxInt64; lia).
  assert (Hb : in_int64 1) by (unfold in_int64, MinInt64, MaxInt64; lia).
  destruct (overflow_boundary MaxInt64 1 (mkCurrency "USD" 2 "$") Ha Hb)
    as [Hadd [_ Hbound]].
  split; [exact Ha|]. split; [exact Hb|]. split.
  - apply Hadd. unfold in_int64, MinInt64, MaxInt64. lia.
  - apply Hbound. cbn. lia.
Defined.

(** ** C3: currency strictness *)

(** C3: for two Money values with equal amounts whose currencies differ in
    code, scale or symbol, [Add], [Sub], [GreaterThan] and [LessThan] fail
    with [ErrCurrencyMismatch], which is not [ErrInvalidOperation], and
    [Equal] returns false. *)
Theorem currency_strictness (m x : Money)
  (Hamount : amount m = amount x)
  (Hdiff : Code (currency m) <> Code (currency x)
           \/ Scale (currency m) <> Scale (currency x)
           \/ Symbol (currency m) <> Symbol (currency x)) :
  Add m x = Err ErrCurrencyMismatch /\
  Sub m x = Err ErrCurrencyMismatch /\
  GreaterThan m x = Err ErrCurrencyMismatch /\
  LessThan m x = Err ErrCurrencyMismatch /\
  Equal m x = false /\
  ErrCurrencyMismatch <> ErrInvalidOperation.
Proof.
  apply sameCurrency_differs in Hdiff.
  unfold Add, Sub, GreaterThan, LessThan, Equal. rewrite Hdiff. cbn [negb].
  repeat split. discriminate.
Qed.

Lemma currency_strictness_witness :
  Add (New 100 (mkCurrency "USD" 2 "$")) (New 100 (mkCurrency "USD" 2 "US$"))
    = Err ErrCurrencyMismatch /\
  Equal (New 100 (mkCurrency "USD" 2 "$")) (New 100 (mkCurrency "USD" 2 "US$"))
    = false.
Proof.
  assert (Hamount : amount (New 100 (mkCurrency "USD" 2 "$"))
                    = amount (New 100 (mkCurrency "USD" 2 "US$"))) by reflexivity.
  assert (Hdiff : Code (currency (New 100 (mkCurrency "USD" 2 "$")))
                    <> Code (currency (New 100 (mkCurrency "USD" 2 "US$")))
                  \/ Scale (currency (New 100 (mkCurrency "USD" 2 "$")))
                    <> Scale (currency (New 100 (mkCurrency "USD" 2 "US$")))
                  \/ Symbol (currency (New 100 (mkCurrency "USD" 2 "$")))
                    <> Symbol (currency (New 100 (mkCurrency "USD" 2 "US$")))).
  { right. right. cbn. discriminate. }
  destruct (currency_strictness _ _ Hamount Hdiff) as [Hadd [_ [_ [_ [Heq _]]]]].
  split; [exact Hadd | exact Heq].
Defined.

(** ** C9: subtraction undoes addition *)

(** C9, as stated, fails: with a currency of scale 19 the sum of two zero
    amounts is representable, yet [Add] rejects it, so there is no sum to
    subtract from. *)
Lemma add_rejected_at_scale_19 :
  Add (New 0 (mkCurrency "XTS" 19 "x")) (New 0 (mkCurrency "XTS" 19 "x"))
  = Err ErrInvalidOperation.
Proof. reflexivity. Qed.

(** C9 (amended): for Money values [a] and [b] of one currency whose scale is
    between 0 and 18 and whose sum is representable in [int64], [Add a b]
    succeeds with the exact sum, and subtracting [b] from it returns [a]:
    the same amount and the same currency. *)
Theorem add_then_sub (a b : Money)
  (Hcur : sameCurrency (currency a) (currency b) = true)
  (Ha : in_int64 (amount a)) (Hb : in_int64 (amount b))
  (Hscale : 0 <= Scale (currency a) <= 18)
  (Hsum : in_int64 (amount a + amount b)) :
  exists r,
    Add a b = Ok r /\ amount r = amount a + amount b /\ Sub r b = Ok a /\
    Equal a a = true.
Proof.
  apply sameCurrency_eq in Hcur.
  destruct a as [x c], b as [y c']. cbn [currency amount] in *. subst c'.
  fold (New x c) (New y c).
  exists (New (x + y) c).
  rewrite Money_Add_exact, Money_Sub_exact by assumption.
  apply in_int64b_true in Hsum. rewrite Hsum.
  replace (x + y - y) with x by lia.
  apply in_int64b_true in Ha. rewrite Ha.
  repeat split.
  unfold Equal, New. cbn [currency amount].
  rewrite sameCurrency_refl. cbn [negb]. unfold calc.Compare.
  apply in_int64b_true in Ha.
  rewrite newAmount_ok by (try assumption; lia). cbn [bind calc.dec].
  unfold decimal.Cmp. now rewrite Z.compare_refl.
Qed.

Lemma add_then_sub_witness :
  exists r,
    Add (New 1050 (mkCurrency "USD" 2 "$")) (New 250 (mkCurrency "USD" 2 "$")) = Ok r /\
    Sub r (New 250 (mkCurrency "USD" 2 "$")) = Ok (New 1050 (mkCurrency "USD" 2 "$")).
Proof.
  assert (Hcur : sameCurrency (currency (New 1050 (mkCurrency "USD" 2 "$")))
                   (currency (New 250 (mkCurrency "USD" 2 "$"))) = true) by reflexivity.
  assert (Ha : in_int64 (amount (New 1050 (mkCurrency "USD" 2 "$"))))
    by (unfold in_int64, MinInt64, MaxInt64; cbn; lia).
  assert (Hb : in_int64 (amount (New 250 (mkCurrency "USD" 2 "$"))))
    by (unfold in_int64, MinInt64, MaxInt64; cbn; lia).
  assert (Hscale : 0 <= Scale (currency (New 1050 (mkCurrency "USD" 2 "$"))) <= 18)
    by (cbn; lia).
  assert (Hsum : in_int64 (amount (New 1050 (mkCurrency "USD" 2 "$"))
                           + amount (New 250 (mkCurrency "USD" 2 "$"))))
    by (unfold in_int64, MinInt64, MaxInt64; cbn; lia).
  destruct (add_then_sub _ _ Hcur Ha Hb Hscale Hsum) as [r [Hadd [_ [Hsub _]]]].
  exists r. split; [exact Hadd | exact Hsub].
Defined.

(** ** C10: reflexivity of Equal *)

(** C10: [Equal m m] is true exactly when the currency scale lies within the
    decimal engine's range 0..[MaxScale]; for every [m] whose scale is
    negative or exceeds [MaxScale] the decimal construction fails and
    [Equal m m] is false. *)
Theorem Equal_reflexive_iff_scale (m : Money) (Hm : in_int64 (amount m)) :
  (Equal m m = true <-> 0 <= Scale (currency m) <= decimal.MaxScale) /\
  (Equal m m = false <->
     Scale (currency m) < 0 \/ decimal.MaxScale < Scale (currency m)) /\
  (Scale (currency m) < 0 \/ decimal.MaxScale < Scale (currency m) ->
     exists e, calc.newAmount (amount m) (Scale (currency m)) = Err e).
Proof.
  unfold decimal.MaxScale.
  assert (Hcases : 0 <= Scale (currency m) <= 19
                   \/ (Scale (currency m) < 0 \/ 19 < Scale (currency m))) by lia.
  assert (Heq : Equal m m = if (0 <=? Scale (currency m)) && (Scale (currency m) <=? 19)
                            then true else false).
  { unfold Equal. rewrite sameCurrency_refl. cbn [negb]. unfold calc.Compare.
    destruct Hcases as [Hs | Hs].
    - rewrite newAmount_ok by assumption. cbn [bind calc.dec].
      unfold decimal.Cmp. rewrite Z.compare_refl.
      destruct (Z.leb_spec 0 (Scale (currency m))); [|lia].
      destruct (Z.leb_spec (Scale (currency m)) 19); [|lia]. reflexivity.
    - rewrite newAmount_bad_scale by assumption. cbn [bind].
      destruct (Z.leb_spec 0 (Scale (currency m)));
        destruct (Z.leb_spec (Scale (currency m)) 19); try reflexivity; lia. }
  rewrite Heq. split; [|split].
  - destruct (Z.leb_spec 0 (Scale (currency m)));
      destruct (Z.leb_spec (Scale (currency m)) 19); cbn; split; try lia;
        try discriminate; reflexivity.
  - destruct (Z.leb_spec 0 (Scale (currency m)));
      destruct (Z.leb_spec (Scale (currency m)) 19); cbn; split; try lia;
        try discriminate; reflexivity.
  - intros Hs. rewrite newAmount_bad_scale by assumption. eauto.
Qed.

Lemma Equal_reflexive_iff_scale_witness :
  in_int64 (amount (New 500 (mkCurrency "XTS" 20 "x"))) /\
  Equal (New 500 (mkCurrency "XTS" 20 "x")) (New 500 (mkCurrency "XTS" 20 "x")) = false.
Proof.
  assert (Hm : in_int64 (amount (New 500 (mkCurrency "XTS" 20 "x"))))
    by (unfold in_int64, MinInt64, MaxInt64; cbn; lia).
  split; [exact Hm|].
  destruct (Equal_reflexive_iff_scale _ Hm) as [_ [Hfalse _]].
  apply Hfalse. right. cbn. unfold decimal.MaxScale. lia.
Defined.

(** ** C4: the format configuration store *)

Section FormatStore.

Lemma runeCount_fuel_nonneg fuel : forall s, 0 <= runeCount_fuel fuel s.
Proof.
  induction fuel as [|fuel IH]; intros s; cbn [runeCount_fuel]; [lia|].
  destruct s as [|c rest]; [lia|].
  specialize (IH (skipn (runeWidth c rest - 1) rest)). lia.
Qed.

Lemma RuneCountInString_empty : RuneCountInString "" = 0.
Proof. reflexivity. Qed.

Lemma RuneCountInString_nonempty s : s <> "" -> 1 <= RuneCountInString s.
Proof.
  intros Hs. destruct s as [|c rest]; [contradiction|].
  unfold RuneCountInString.
  cbn [String.length list_ascii_of_string runeCount_fuel].
  pose proof (runeCount_fuel_nonneg (String.length rest)
                (skipn (runeWidth c (list_ascii_of_string rest) - 1)
                   (list_ascii_of_string rest))).
  lia.
Qed.

(** [validateFormat] rejects exactly the configurations that break a rule,
    and always with [ErrInvalidOperation]. *)
Lemma validateFormat_rejects cfg :
  violates cfg -> validateFormat cfg = Some ErrInvalidOperation.
Proof.
  unfold violates, validateFormat. intros H.
  destruct (String.eqb_spec (DecimalSeparator cfg) "") as [Hd | Hd]; [reflexivity|].
  destruct (Z.eqb_spec (RuneCountInString (DecimalSeparator cfg)) 1) as [Hd1 | Hd1];
    [|reflexivity].
  destruct (String.eqb_spec (ThousandsSeparator cfg) "") as [Ht | Ht]; cbn [negb andb].
  - rewrite Ht, RuneCountInString_empty in H.
    destruct (Z.eqb_spec (SymbolKind cfg) SymbolUseCustom) as [Hk | Hk]; cbn [andb].
    + destruct (String.eqb_spec (CustomSymbol cfg) "") as [Hc | Hc]; [reflexivity|].
      destruct (Z.eqb_spec (SymbolPosition cfg) SymbolPrefix);
        destruct (Z.eqb_spec (SymbolPosition cfg) SymbolSuffix);
        destruct (Z.eqb_spec (SymbolKind cfg) SymbolUseCurrencySymbol);
        destruct (Z.eqb_spec (SymbolKind cfg) SymbolUseCurrencyCode);
        cbn; try reflexivity; exfalso;
        destruct H as [H | [H | [H | [H | [H | [H | H]]]]]];
        try congruence; try lia; try tauto.
    + destruct (Z.eqb_spec (SymbolPosition cfg) SymbolPrefix);
        destruct (Z.eqb_spec (SymbolPosition cfg) SymbolSuffix);
        destruct (Z.eqb_spec (SymbolKind cfg) SymbolUseCurrencySymbol);
        destruct (Z.eqb_spec (SymbolKind cfg) SymbolUseCurrencyCode);
        cbn; try reflexivity; exfalso;
        destruct H as [H | [H | [H | [H | [H | [H | H]]]]]];
        try congruence; try lia; try tauto.
  - destruct (Z.eqb_spec (RuneCountInString (ThousandsSeparator cfg)) 1) as [Ht1 | Ht1];
      [|reflexivity].
    cbn [negb].
    destruct (String.eqb_spec (ThousandsSeparator cfg) (DecimalSeparator cfg));
      [reflexivity|].
    destruct (Z.eqb_spec (SymbolKind cfg) SymbolUseCustom) as [Hk | Hk]; cbn [andb].
    + destruct (String.eqb_spec (CustomSymbol cfg) "") as [Hc | Hc]; [reflexivity|].
      destruct (Z.eqb_spec (SymbolPosition cfg) SymbolPrefix);
        destruct (Z.eqb_spec (SymbolPosition cfg) SymbolSuffix);
        destruct (Z.eqb_spec (SymbolKind cfg) SymbolUseCurrencySymbol);
        destruct (Z.eqb_spec (SymbolKind cfg) SymbolUseCurrencyCode);
        cbn; try reflexivity; exfalso;
        destruct H as [H | [H | [H | [H | [H | [H | H]]]]]];
        try congruence; try lia; try tauto.
    + destruct (Z.eqb_spec (SymbolPosition cfg) SymbolPrefix);
        destruct (Z.eqb_spec (SymbolPosition cfg) SymbolSuffix);
        destruct (Z.eqb_spec (SymbolKind cfg) SymbolUseCurrencySymbol);
        destruct (Z.eqb_spec (SymbolKind cfg) SymbolUseCurrencyCode);
        cbn; try reflexivity; exfalso;
        destruct H as [H | [H | [H | [H | [H | [H | H]]]]]];
        try congruence; try lia; try tauto.
Qed.

Lemma validateFormat_accepts cfg :
  ~ violates cfg -> validateFormat cfg = None.
Proof.
  unfold violates, validateFormat. intros H.
  destruct (String.eqb_spec (DecimalSeparator cfg) "") as [Hd | Hd]; [tauto|].
  pose proof (RuneCountInString_nonempty _ Hd) as Hd1.
  destruct (Z.eqb_spec (RuneCountInString (DecimalSeparator cfg)) 1);
    [|exfalso; apply H; right; left; lia].
  cbn [negb].
  assert (Ht : (negb (ThousandsSeparator cfg =? "")%string
                && negb (RuneCountInString (ThousandsSeparator cfg) =? 1)) = false).
  { destruct (String.eqb_spec (ThousandsSeparator cfg) "") as [Ht | Ht]; [reflexivity|].
    pose proof (RuneCountInString_nonempty _ Ht).
    destruct (Z.eqb_spec (RuneCountInString (ThousandsSeparator cfg)) 1);
      [reflexivity|].
    exfalso. apply H. right. right. left. lia. }
  rewrite Ht.
  destruct (String.eqb_spec (ThousandsSeparator cfg) (DecimalSeparator cfg)); [tauto|].
  rewrite andb_false_r.
  destruct (Z.eqb_spec (SymbolKind cfg) SymbolUseCustom) as [Hk | Hk]; cbn [andb].
  - destruct (String.eqb_spec (CustomSymbol cfg) "") as [Hc | Hc]; [tauto|].
    destruct (Z.eqb_spec (SymbolPosition cfg) SymbolPrefix);
      destruct (Z.eqb_spec (SymbolPosition cfg) SymbolSuffix);
      cbn; rewrite ?orb_true_r; cbn; try reflexivity; tauto.
  - destruct (Z.eqb_spec (SymbolPosition cfg) SymbolPrefix);
      destruct (Z.eqb_spec (SymbolPosition cfg) SymbolSuffix);
      destruct (Z.eqb_spec (SymbolKind cfg) SymbolUseCurrencySymbol);
      destruct (Z.eqb_spec (SymbolKind cfg) SymbolUseCurrencyCode);
      cbn; try reflexivity; tauto.
Qed.

Lemma validateFormat_error cfg e :
  validateFormat cfg = Some e -> e = ErrInvalidOperation.
Proof.
  unfold validateFormat. intros H.
  repeat match type of H with
         | (if ?b then _ else _) = _ => destruct b
         end; congruence.
Qed.

Lemma last_cons {A} (x : A) l d : last (x :: l) d = last l x.
Proof.
  revert x d. induction l as [|y l IH]; intros x d; [reflexivity|].
  change (last (x :: y :: l) d) with (last (y :: l) d).
  now rewrite !IH.
Qed.

Lemma run_last cfgs : forall st, run cfgs st = last (filter passes cfgs) st.
Proof.
  induction cfgs as [|cfg cfgs IH]; intros st; [reflexivity|].
  unfold run in *. cbn [fold_left filter]. rewrite IH.
  unfold SetFormat, passes at 2.
  destruct (validateFormat cfg); cbn [fst]; [reflexivity|].
  now rewrite last_cons.
Qed.

Lemma run_valid cfgs : forall st,
  validateFormat st = None -> validateFormat (run cfgs st) = None.
Proof.
  induction cfgs as [|cfg cfgs IH]; intros st Hst; [exact Hst|].
  unfold run in *. cbn [fold_left]. apply IH.
  unfold SetFormat. destruct (validateFormat cfg) eqn:E; cbn [fst]; assumption.
Qed.

End FormatStore.

(** C4: the store only ever holds a valid configuration.  After any sequence
    of [SetFormat] calls on the initial store, the configuration read by
    [DefaultFormat] passes validation and is the last configuration of the
    sequence that passed validation, or the initial default when none did; a
    configuration that breaks a validation rule is rejected with
    [ErrInvalidOperation] by [SetFormat], which leaves the store as it was,
    and by [Format]; a configuration that breaks no rule is stored. *)
Theorem format_store_invariant
  (cfgs : list FormatConfig) (cfg : FormatConfig) (m : Money) :
  let st := run cfgs init in
  validateFormat (DefaultFormat st) = None /\
  DefaultFormat st = last (filter passes cfgs) init /\
  (violates cfg ->
     SetFormat cfg st = (st, Some ErrInvalidOperation) /\
     DefaultFormat (fst (SetFormat cfg st)) = DefaultFormat st /\
     Format m cfg = Err ErrInvalidOperation) /\
  (~ violates cfg -> SetFormat cfg st = (cfg, None)).
Proof.
  cbv zeta. unfold DefaultFormat. split; [|split; [|split]].
  - apply run_valid. reflexivity.
  - apply run_last.
  - intros Hv. apply validateFormat_rejects in Hv.
    unfold SetFormat, Format. rewrite Hv. repeat split.
  - intros Hv. apply validateFormat_accepts in Hv.
    unfold SetFormat. now rewrite Hv.
Qed.

Lemma format_store_invariant_witness :
  violates (mkFormatConfig "." "." SymbolPrefix SymbolUseCurrencySymbol "" false) /\
  SetFormat (mkFormatConfig "." "." SymbolPrefix SymbolUseCurrencySymbol "" false)
    (run [mkFormatConfig "," "." SymbolSuffix SymbolUseCurrencySymbol "" true] init)
  = (mkFormatConfig "," "." SymbolSuffix SymbolUseCurrencySymbol "" true,
     Some ErrInvalidOperation).
Proof.
  assert (Hv : violates
                 (mkFormatConfig "." "." SymbolPrefix SymbolUseCurrencySymbol "" false)).
  { right. right. right. left. reflexivity. }
  split; [exact Hv|].
  destruct (format_store_invariant
              [mkFormatConfig "," "." SymbolSuffix SymbolUseCurrencySymbol "" true]
              (mkFormatConfig "." "." SymbolPrefix SymbolUseCurrencySymbol "" false)
              (New 0 (mkCurrency "USD" 2 "$"))) as [_ [_ [Hrej _]]].
  destruct (Hrej Hv) as [Hset _]. exact Hset.
Defined.

(** ** C8: composition of the rendered text *)

Lemma validateFormat_valid cfg : validateFormat cfg = None -> ~ violates cfg.
Proof.
  intros Hv Hbad. apply validateFormat_rejects in Hbad. congruence.
Qed.

Lemma absInt64String_abs a :
  in_int64 a -> absInt64String a = FormatUint (Z.abs a).
Proof.
  intros Ha. unfold absInt64String.
  destruct (Z.geb_spec a 0); [now rewrite Z.abs_eq by lia|].
  destruct (Z.eqb_spec a MinInt64) as [-> | Hne]; [reflexivity|].
  rewrite wrap64_id by (int64_bounds; lia). f_equal. lia.
Qed.

(** C8: under a valid configuration rendering succeeds and the text is
    sign, symbol, optional space, amount in prefix mode and sign, amount,
    optional space, symbol in suffix mode; the symbol is the currency's
    symbol, its code or the custom symbol, by the configured kind; the space
    is present only when the symbol is non-empty and the configuration asks
    for it; the sign is "-" for a negative amount and empty otherwise, so the
    text of a negative amount starts with '-', before the symbol even in
    prefix mode; the amount part is built from the digits of the magnitude.
    -105 at scale 2 under the default configuration renders as "-$1.05". *)
Theorem format_composition (m : Money) (cfg : FormatConfig)
  (Hvalid : validateFormat cfg = None) :
  let symbol :=
    if SymbolKind cfg =? SymbolUseCurrencySymbol then Symbol (currency m)
    else if SymbolKind cfg =? SymbolUseCurrencyCode then Code (currency m)
    else CustomSymbol cfg in
  let space := if Space cfg && negb (symbol =? "")%string then " " else "" in
  let sign := if amount m <? 0 then "-" else "" in
  (SymbolPosition cfg = SymbolPrefix \/ SymbolPosition cfg = SymbolSuffix) /\
  (SymbolPosition cfg = SymbolPrefix ->
     Format m cfg = Ok (sign ++ symbol ++ space ++ amountText m cfg)) /\
  (SymbolPosition cfg = SymbolSuffix ->
     Format m cfg = Ok (sign ++ amountText m cfg ++ space ++ symbol)) /\
  (amount m < 0 -> exists rest, Format m cfg = Ok (String "-" rest)) /\
  (in_int64 (amount m) -> absInt64String (amount m) = FormatUint (Z.abs (amount m))) /\
  Format (New (-105) (mkCurrency "USD" 2 "$")) init = Ok "-$1.05" /\
  String_ init (New (-105) (mkCurrency "USD" 2 "$")) = "-$1.05".
Proof.
  pose proof (validateFormat_valid cfg Hvalid) as Hok. unfold violates in Hok.
  assert (Hpos : SymbolPosition cfg = SymbolPrefix \/ SymbolPosition cfg = SymbolSuffix)
    by (destruct (Z.eq_dec (SymbolPosition cfg) SymbolPrefix);
        destruct (Z.eq_dec (SymbolPosition cfg) SymbolSuffix); tauto).
  assert (Hkind : SymbolKind cfg = SymbolUseCurrencySymbol
                  \/ SymbolKind cfg = SymbolUseCurrencyCode
                  \/ SymbolKind cfg = SymbolUseCustom)
    by (destruct (Z.eq_dec (SymbolKind cfg) SymbolUseCurrencySymbol);
        destruct (Z.eq_dec (SymbolKind cfg) SymbolUseCurrencyCode);
        destruct (Z.eq_dec (SymbolKind cfg) SymbolUseCustom); tauto).
  assert (Hcustom : SymbolKind cfg = SymbolUseCustom -> CustomSymbol cfg <> "")
    by (intros Hk Hc; tauto).
  cbv zeta.
  set (symbol := if SymbolKind cfg =? SymbolUseCurrencySymbol then Symbol (currency m)
                 else if SymbolKind cfg =? SymbolUseCurrencyCode then Code (currency m)
                 else CustomSymbol cfg).
  assert (Hsym : formatSymbol (currency m) cfg = Ok symbol).
  { unfold formatSymbol, symbol.
    destruct Hkind as [Hk | [Hk | Hk]]; rewrite Hk; cbn; try reflexivity.
    destruct (String.eqb_spec (CustomSymbol cfg) ""); [|reflexivity].
    now elim (Hcustom Hk). }
  assert (Hsep : (if (symbol =? "")%string then ""
                  else if Space cfg then " " else "")
                 = if Space cfg && negb (symbol =? "")%string then " " else "").
  { destruct (symbol =? "")%string, (Space cfg); reflexivity. }
  assert (Hfmt : Format m cfg =
            Ok (if SymbolPosition cfg =? SymbolSuffix
                then signPrefix (amount m) ++ amountText m cfg
                     ++ (if Space cfg && negb (symbol =? "")%string then " " else "")
                     ++ symbol
                else signPrefix (amount m) ++ symbol
                     ++ (if Space cfg && negb (symbol =? "")%string then " " else "")
                     ++ amountText m cfg)).
  { unfold Format. rewrite Hvalid. unfold formatWithConfig. rewrite Hsym.
    cbn [bind]. rewrite Hsep. now destruct (SymbolPosition cfg =? SymbolSuffix). }
  unfold signPrefix in Hfmt.
  split; [exact Hpos|]. split; [|split; [|split; [|split; [|split]]]].
  - intros Hp. rewrite Hfmt, Hp. reflexivity.
  - intros Hp. rewrite Hfmt, Hp. reflexivity.
  - intros Hneg. rewrite Hfmt.
    destruct (Z.ltb_spec (amount m) 0); [|lia].
    destruct (SymbolPosition cfg =? SymbolSuffix); eexists; reflexivity.
  - apply absInt64String_abs.
  - reflexivity.
  - reflexivity.
Qed.

Lemma format_composition_witness :
  validateFormat init = None /\
  Format (New (-105) (mkCurrency "USD" 2 "$")) init = Ok "-$1.05".
Proof.
  assert (Hvalid : validateFormat init = None) by reflexivity.
  split; [exact Hvalid|].
  destruct (format_composition (New (-105) (mkCurrency "USD" 2 "$")) init Hvalid)
    as [_ [Hprefix _]].
  exact (Hprefix eq_refl).
Defined.

(** ** C6: the percent multiplier *)

(** While [100 + p], respectively [100 - p], fits [int64] the multiplier is
    the exact decimal with two fractional digits, negative included. *)
Lemma percentMultiplier_exact p :
  in_int64 p ->
  (in_int64 (100 + p) ->
     calc.percentMultiplier p true = Ok (of_signed (100 + p) 2)) /\
  (in_int64 (100 - p) ->
     calc.percentMultiplier p false = Ok (of_signed (100 - p) 2)) /\
  (100 < p -> calc.percentMultiplier p false
              = Ok (decimal.mkDecimal true (p - 100) 2)).
Proof.
  intros Hp. unfold calc.percentMultiplier. repeat split.
  - intros H. rewrite wrap64_id by assumption. now rewrite New_ok by (try assumption; lia).
  - intros H. rewrite wrap64_id by assumption. now rewrite New_ok by (try assumption; lia).
  - intros H. assert (Hr : in_int64 (100 - p)) by (int64_bounds; lia).
    rewrite wrap64_id by assumption. rewrite New_ok by (try assumption; lia).
    cbn [calc.lift map_err]. unfold of_signed.
    destruct (Z.ltb_spec (100 - p) 0); [|lia]. do 2 f_equal. lia.
Qed.

(** C6 (the code at the failing input): for the percent [MaxInt64] the sum
    [100 + p] wraps around in [int64], so the increase multiplier is
    -92233720368547757.09 instead of 92233720368547759.07, and
    [AddPercent] turns one minor unit into a negative amount without
    reporting a failure. *)
Theorem percentMultiplier_wraps :
  calc.percentMultiplier MaxInt64 true
    = Ok (decimal.mkDecimal true 9223372036854775709 2) /\
  calc.percentMultiplier MinInt64 false
    = Ok (decimal.mkDecimal true 9223372036854775708 2) /\
  AddPercent (New 1 (mkCurrency "USD" 2 "$")) MaxInt64
    = Ok (New (-92233720368547757) (mkCurrency "USD" 2 "$")).
Proof. repeat split. Qed.

(** ** C7: division *)

Section Division.

Import decimal.

Lemma newSafe_scale n c sc d : newSafe n c sc = Ok d -> scale d = sc.
Proof.
  unfold newSafe, newUnsafe. intros H.
  destruct ((sc <? MinScale) || (sc >? MaxScale)); [discriminate|].
  destruct (c >? maxCoef); [discriminate|].
  injection H as <-. reflexivity.
Qed.

Lemma newFromFint_scale n c sc ms d :
  ms <= MaxScale -> newFromFint n c sc ms = Ok d -> ms <= scale d.
Proof.
  unfold newFromFint. intros Hms H.
  destruct (Z.ltb_spec sc ms).
  - destruct (fint_lsh c (ms - sc)); [|discriminate].
    apply newSafe_scale in H. lia.
  - destruct (Z.gtb_spec sc MaxScale); apply newSafe_scale in H; lia.
Qed.

Lemma newFromBint_fuel_scale fuel : forall n c sc ms d,
  ms <= MaxScale -> newFromBint_fuel fuel n c sc ms = Ok d -> ms <= scale d.
Proof.
  induction fuel as [|fuel IH]; intros n c sc ms d Hms H; cbn [newFromBint_fuel] in H.
  - destruct (Z.gtb_spec (prec c - sc) (MaxPrec - ms)); [discriminate|].
    destruct (Z.ltb_spec sc ms).
    { destruct (prec (c * pow10 (ms - sc)) >? MaxPrec); [discriminate|].
      apply newSafe_scale in H. lia. }
    destruct ((sc >=? prec c) && (sc >? MaxScale)).
    { destruct (prec (rshHalfEven c (sc - MaxScale)) >? MaxPrec); [discriminate|].
      apply newSafe_scale in H. lia. }
    destruct ((prec c >? sc) && (prec c >? MaxPrec)).
    { destruct (prec (rshHalfEven c (prec c - MaxPrec)) >? MaxPrec); [discriminate|].
      apply newSafe_scale in H. lia. }
    destruct (prec c >? MaxPrec); [discriminate|].
    apply newSafe_scale in H. lia.
  - destruct (Z.gtb_spec (prec c - sc) (MaxPrec - ms)); [discriminate|].
    destruct (Z.ltb_spec sc ms).
    { destruct (prec (c * pow10 (ms - sc)) >? MaxPrec);
        [now apply IH in H | apply newSafe_scale in H; lia]. }
    destruct ((sc >=? prec c) && (sc >? MaxScale)).
    { destruct (prec (rshHalfEven c (sc - MaxScale)) >? MaxPrec);
        [now apply IH in H | apply newSafe_scale in H; lia]. }
    destruct ((prec c >? sc) && (prec c >? MaxPrec)).
    { destruct (prec (rshHalfEven c (prec c - MaxPrec)) >? MaxPrec);
        [now apply IH in H | apply newSafe_scale in H; lia]. }
    destruct (prec c >? MaxPrec);
      [now apply IH in H | apply newSafe_scale in H; lia].
Qed.

Lemma trim_fuel_scale fuel : forall c sc s,
  s <= sc -> s <= snd (trim_fuel fuel c sc s).
Proof.
  induction fuel as [|fuel IH]; intros c sc s Hs; cbn [trim_fuel]; [exact Hs|].
  destruct (Z.gtb_spec sc s); cbn [andb]; [|exact Hs].
  destruct (c mod 10 =? 0); [|exact Hs].
  apply IH. lia.
Qed.

Lemma Trim_scale d t s :
  0 <= s -> s <= t -> s <= scale d -> s <= scale (Trim d t).
Proof.
  intros Hs Ht Hd. unfold Trim.
  destruct (Z.leb_spec (scale d) t); [exact Hd|].
  pose proof (trim_fuel_scale (Z.to_nat (scale d)) (coef d) (scale d) (Z.max t MinScale)
                ltac:(unfold MinScale; lia)) as Hfuel.
  destruct (trim_fuel (Z.to_nat (scale d)) (coef d) (scale d) (Z.max t MinScale))
    as [c sc].
  cbn [snd] in Hfuel. unfold newUnsafe. cbn [scale]. lia.
Qed.

(** The quotient carries at least the requested number of fractional
    digits; it can carry more. *)
Lemma QuoExact_scale d e s q : QuoExact d e s = Ok q -> s <= scale q.
Proof.
  unfold QuoExact. intros H.
  destruct (Z.ltb_spec s MinScale); [discriminate|].
  destruct (Z.gtb_spec s MaxScale); [discriminate|]. cbn [orb] in H.
  destruct (coef e =? 0); [discriminate|].
  destruct (coef d =? 0).
  - apply newSafe_scale in H. lia.
  - destruct (quoFint d e s) as [f | err] eqn:Ef.
    + cbn [bind] in H. injection H as <-.
      apply Trim_scale; [unfold MinScale in *; lia | lia |].
      unfold quoFint in Ef.
      repeat match type of Ef with
             | match ?x with _ => _ end = _ => destruct x; try discriminate
             end.
      now apply newFromFint_scale in Ef.
    + destruct (quoBint d e s) as [f | err'] eqn:Eb; [|discriminate].
      cbn [bind] in H. injection H as <-.
      apply Trim_scale; [unfold MinScale in *; lia | lia |].
      unfold quoBint, newFromBint in Eb.
      now apply newFromBint_fuel_scale in Eb.
Qed.

Lemma QuoExact_zero_divisor d e s :
  coef e = 0 -> exists err, QuoExact d e s = Err err.
Proof.
  intros He. unfold QuoExact. rewrite He. cbn [Z.eqb].
  destruct ((s <? MinScale) || (s >? MaxScale)); eauto.
Qed.

End Division.

(** C7, as stated, fails in its second half: the division step does not
    deliver the target scale's digits by itself.  For 15.67 / 2 at scale 2 the
    engine's quotient is 7.835, with three fractional digits, and it is the
    separate rounding step of [Div], the same [Round] as in the other
    operations, that turns it into 7.84, that is 784 minor units. *)
Lemma division_is_rounded_afterwards :
  calc.divide (calc.mkAmount (decimal.mkDecimal false 1567 2))
    (decimal.mkDecimal false 2 0) 2
    = Ok (calc.mkAmount (decimal.mkDecimal false 7835 3)) /\
  decimal.Round (decimal.mkDecimal false 7835 3) 2 = decimal.mkDecimal false 784 2 /\
  decimal.Round (decimal.mkDecimal false 7835 3) 2 <> decimal.mkDecimal false 7835 3 /\
  calc.Div 1567 2 2 = Ok 784.
Proof. repeat split. discriminate. Qed.

(** C7 (amended): division by zero is rejected for every value and every
    scale, and the failure reaches the caller as [ErrInvalidOperation]; for
    any divisor, the division step hands the scale to the engine as the
    least number of fractional digits of the quotient, and [Div] then rounds
    that quotient to the scale with [Round]. *)
Theorem division_by_zero_rejected (v d s : Z) :
  (exists e, calc.Div v 0 s = Err e) /\
  invalid (calc.Div v 0 s) = Err ErrInvalidOperation /\
  (forall a x q,
     calc.newAmount v s = Ok a -> calc.lift (decimal.New d 0) = Ok x ->
     calc.divide a x s = Ok q ->
     s <= decimal.scale (calc.dec q) /\
     calc.Div v d s = calc.Round (calc.dec q) s).
Proof.
  assert (Hzero : exists e, calc.Div v 0 s = Err e).
  { unfold calc.Div.
    destruct (calc.newAmount v s) as [a | e]; [|now exists e].
    cbn [bind]. change (decimal.New 0 0)
      with (Ok (decimal.mkDecimal false 0 0) : result decimal.error decimal.Decimal).
    cbn [calc.lift map_err bind]. unfold calc.divide.
    destruct (QuoExact_zero_divisor (calc.dec a) (decimal.mkDecimal false 0 0) s
                eq_refl) as [err ->].
    cbn. eauto. }
  split; [exact Hzero|]. split.
  - destruct Hzero as [e ->]. reflexivity.
  - intros a x q Ha Hx Hq. split.
    + unfold calc.divide in Hq.
      destruct (decimal.QuoExact (calc.dec a) x s) as [f | err] eqn:E;
        [|discriminate].
      cbn in Hq. injection Hq as <-. cbn [calc.dec].
      now apply QuoExact_scale in E.
    + unfold calc.Div. rewrite Ha. cbn [bind]. rewrite Hx. cbn [bind].
      rewrite Hq. reflexivity.
Qed.

Lemma division_by_zero_rejected_witness :
  calc.newAmount 1567 2 = Ok (calc.mkAmount (decimal.mkDecimal false 1567 2)) /\
  calc.lift (decimal.New 2 0) = Ok (decimal.mkDecimal false 2 0) /\
  calc.divide (calc.mkAmount (decimal.mkDecimal false 1567 2))
    (decimal.mkDecimal false 2 0) 2
    = Ok (calc.mkAmount (decimal.mkDecimal false 7835 3)) /\
  2 <= decimal.scale (decimal.mkDecimal false 7835 3) /\
  calc.Div 1567 2 2 = calc.Round (decimal.mkDecimal false 7835 3) 2.
Proof.
  assert (Ha : calc.newAmount 1567 2
               = Ok (calc.mkAmount (decimal.mkDecimal false 1567 2))) by reflexivity.
  assert (Hx : calc.lift (decimal.New 2 0) = Ok (decimal.mkDecimal false 2 0))
    by reflexivity.
  assert (Hq : calc.divide (calc.mkAmount (decimal.mkDecimal false 1567 2))
                 (decimal.mkDecimal false 2 0) 2
               = Ok (calc.mkAmount (decimal.mkDecimal false 7835 3))) by reflexivity.
  split; [exact Ha|]. split; [exact Hx|]. split; [exact Hq|].
  destruct (division_by_zero_rejected 1567 2 2) as [_ [_ Hdiv]].
  exact (Hdiv _ _ _ Ha Hx Hq).
Defined.

(** * Further properties of the code *)

(** ** The checked integer primitives of round.go *)

(** X1: on [int64] operands [addInt64] returns the exact sum when the sum is
    representable in [int64] and reports overflow otherwise; it never returns
    a wrapped value. *)
Theorem addInt64_checked (a b : Z) (Ha : in_int64 a) (Hb : in_int64 b) :
  (in_int64 (a + b) -> calc.addInt64 a b = Some (a + b)) /\
  (~ in_int64 (a + b) -> calc.addInt64 a b = None) /\
  (forall r, calc.addInt64 a b = Some r -> r = a + b /\ in_int64 r).
Proof.
  rewrite addInt64_exact by assumption. fold (in_int64b (a + b)).
  split; [|split].
  - intros H. apply in_int64b_true in H. now rewrite H.
  - intros H. apply in_int64b_false in H. now rewrite H.
  - intros r. destruct (in_int64b (a + b)) eqn:E; [|discriminate].
    intros [= <-]. split; [reflexivity | now apply in_int64b_true].
Qed.

Lemma addInt64_checked_witness :
  calc.addInt64 MaxInt64 1 = None /\ calc.addInt64 MinInt64 MaxInt64 = Some (-1).
Proof.
  assert (Hmax : in_int64 MaxInt64) by (unfold in_int64, MinInt64, MaxInt64; lia).
  assert (Hmin : in_int64 MinInt64) by (unfold in_int64, MinInt64, MaxInt64; lia).
  assert (H1 : in_int64 1) by (unfold in_int64, MinInt64, MaxInt64; lia).
  split.
  - apply (addInt64_checked MaxInt64 1 Hmax H1).
    unfold in_int64, MinInt64, MaxInt64. lia.
  - apply (addInt64_checked MinInt64 MaxInt64 Hmin Hmax).
    unfold in_int64, MinInt64, MaxInt64. lia.
Defined.

(** The four parts of the statement about [mulInt64], in one branch of the
    function. *)
Ltac mul_cases :=
  split;
  [ let r := fresh "r" in let Hr := fresh "Hr" in
    intros r Hr; try discriminate Hr; injection Hr as <-;
    split; int64_bounds; lia
  | split;
    [ intros ?; try reflexivity; try (f_equal; lia); exfalso; int64_bounds; lia
    | split;
      [ intros ?; try reflexivity; try (f_equal; lia); exfalso; int64_bounds; lia
      | intros ? ? ?; try reflexivity; try (f_equal; lia); exfalso; int64_bounds; lia ] ] ].

(** X2: on [int64] operands [mulInt64] never returns a wrong product: a
    returned value is the exact product and lies in [int64]; every product of
    magnitude at most [MaxInt64] is returned; a product outside [int64] is
    reported as overflow; and the check is conservative at the bottom of the
    range: the representable product [MinInt64] is reported as overflow
    unless one factor is 1. *)
Theorem mulInt64_checked (a b : Z) (Ha : in_int64 a) (Hb : in_int64 b) :
  (forall r, calc.mulInt64 a b = Some r -> r = a * b /\ in_int64 r) /\
  (Z.abs (a * b) <= MaxInt64 -> calc.mulInt64 a b = Some (a * b)) /\
  (~ in_int64 (a * b) -> calc.mulInt64 a b = None) /\
  (a * b = MinInt64 -> a <> 1 -> b <> 1 -> calc.mulInt64 a b = None).
Proof.
  assert (Hgen : a <> 0 -> b <> 0 ->
            calc.mulInt64_general a b =
              if Z.abs (a * b) <=? MaxInt64 then Some (a * b) else None)
    by (intros; now apply mulInt64_general_exact).
  unfold calc.mulInt64.
  destruct (Z.eqb_spec a 0) as [-> | Ha0]; cbn [orb]; [mul_cases|].
  destruct (Z.eqb_spec b 0) as [-> | Hb0]; cbn [orb]; [mul_cases|].
  specialize (Hgen Ha0 Hb0).
  destruct (Z.eqb_spec a MinInt64) as [-> | HaM]; cbn [andb].
  - destruct (Z.eqb_spec b 1) as [-> | Hb1]; [mul_cases|].
    destruct (Z.eqb_spec b (-1)) as [-> | Hbm1]; [mul_cases|].
    destruct (Z.eqb_spec b MinInt64) as [-> | HbM]; cbn [andb]; [mul_cases|].
    rewrite Hgen.
    destruct (Z.leb_spec (Z.abs (MinInt64 * b)) MaxInt64); mul_cases.
  - destruct (Z.eqb_spec b MinInt64) as [-> | HbM]; cbn [andb].
    + destruct (Z.eqb_spec a 1) as [-> | Ha1]; [mul_cases|].
      destruct (Z.eqb_spec a (-1)) as [-> | Ham1]; [mul_cases|].
      rewrite Hgen.
      destruct (Z.leb_spec (Z.abs (a * MinInt64)) MaxInt64); mul_cases.
    + rewrite Hgen.
      destruct (Z.leb_spec (Z.abs (a * b)) MaxInt64); mul_cases.
Qed.

Lemma mulInt64_checked_witness :
  calc.mulInt64 (-4611686018427387904) 2 = None /\
  calc.mulInt64 (-3037000499) 3037000499 = Some (-9223372030926249001).
Proof.
  assert (Ha : in_int64 (-4611686018427387904))
    by (unfold in_int64, MinInt64, MaxInt64; lia).
  assert (Hb : in_int64 2) by (unfold in_int64, MinInt64, MaxInt64; lia).
  assert (Hc : in_int64 (-3037000499)) by (unfold in_int64, MinInt64, MaxInt64; lia).
  assert (Hd : in_int64 3037000499) by (unfold in_int64, MinInt64, MaxInt64; lia).
  split.
  - apply (mulInt64_checked (-4611686018427387904) 2 Ha Hb).
    + reflexivity.
    + lia.
    + lia.
  - apply (mulInt64_checked (-3037000499) 3037000499 Hc Hd).
    unfold MaxInt64. lia.
Defined.

(** X3: [pow10Int64] returns [10^scale] exactly for the scales 0 to 18 and
    reports failure for every other scale, negative ones included. *)
Theorem pow10Int64_range (s : Z) :
  calc.pow10Int64 s = if (0 <=? s) && (s <=? 18) then Some (10 ^ s) else None.
Proof.
  destruct (Z.leb_spec 0 s); destruct (Z.leb_spec s 18); cbn [andb].
  - apply pow10Int64_fits. lia.
  - apply pow10Int64_overflow. lia.
  - apply pow10Int64_negative. lia.
  - apply pow10Int64_negative. lia.
Qed.

(** X4: [combineInt64] on [int64] parts: at scale 0 it returns the whole part
    and ignores the fractional part; at a scale from 1 to 18 it returns
    [whole * 10^scale + frac] exactly, provided both the product and the sum
    are representable (the product is checked before the fraction is added,
    with magnitude at most [MaxInt64]), and fails with the overflow error
    otherwise; at every other scale it fails. *)
Theorem combineInt64_exact (whole frac s : Z)
  (Hw : in_int64 whole) (Hf : in_int64 frac) :
  calc.combineInt64 whole frac s =
    if s =? 0 then Ok whole
    else if (1 <=? s) && (s <=? 18)
            && (Z.abs (whole * 10 ^ s) <=? MaxInt64)
            && in_int64b (whole * 10 ^ s + frac)
    then Ok (whole * 10 ^ s + frac)
    else Err calc.errOverflow.
Proof.
  destruct (Z.eqb_spec s 0) as [-> | Hs0]; [reflexivity|].
  destruct (Z.leb_spec 1 s); destruct (Z.leb_spec s 18); cbn [andb].
  - rewrite combineInt64_checked by (try assumption; lia).
    unfold in_int64b. now rewrite andb_assoc.
  - unfold calc.combineInt64.
    destruct (Z.ltb_spec s 0); [lia|]. destruct (Z.eqb_spec s 0); [lia|].
    now rewrite pow10Int64_overflow by lia.
  - unfold calc.combineInt64. destruct (Z.ltb_spec s 0); [reflexivity | lia].
  - lia.
Qed.

Lemma combineInt64_exact_witness :
  calc.combineInt64 12 34 2 = Ok 1234 /\
  calc.combineInt64 922337203685477581 (-5) 1 = Err calc.errOverflow.
Proof.
  assert (H12 : in_int64 12) by (unfold in_int64, MinInt64, MaxInt64; lia).
  assert (H34 : in_int64 34) by (unfold in_int64, MinInt64, MaxInt64; lia).
  assert (Hw : in_int64 922337203685477581)
    by (unfold in_int64, MinInt64, MaxInt64; lia).
  assert (Hf : in_int64 (-5)) by (unfold in_int64, MinInt64, MaxInt64; lia).
  split.
  - rewrite (combineInt64_exact 12 34 2 H12 H34). reflexivity.
  - rewrite (combineInt64_exact 922337203685477581 (-5) 1 Hw Hf). reflexivity.
Defined.

(** ** Comparison *)

Section Comparison.

Lemma signed_of_signed c s : decimal.signed (of_signed c s) = c.
Proof.
  unfold decimal.signed, of_signed. cbn.
  destruct (Z.ltb_spec c 0); lia.
Qed.

Lemma Cmp_same_scale a b s :
  0 <= s -> decimal.Cmp (of_signed a s) (of_signed b s) = three_way a b.
Proof.
  intros Hs. unfold decimal.Cmp, three_way. rewrite !signed_of_signed.
  cbn [of_signed decimal.scale].
  assert (Hp : 0 < decimal.pow10 s) by (apply Z.pow_pos_nonneg; lia).
  destruct (Z.compare_spec a b);
    destruct (Z.compare_spec (a * decimal.pow10 s) (b * decimal.pow10 s));
    try reflexivity; nia.
Qed.

Lemma Compare_three_way a b s :
  in_int64 a -> in_int64 b ->
  calc.Compare a b s =
    if engine_scale s then Ok (three_way a b)
    else Err (calc.errDecimal decimal.errInvalidScale).
Proof.
  intros Ha Hb. unfold calc.Compare, engine_scale, decimal.MaxScale.
  destruct (Z.leb_spec 0 s); destruct (Z.leb_spec s 19); cbn [andb].
  - rewrite !newAmount_ok by (try assumption; lia). cbn [bind calc.dec].
    now rewrite Cmp_same_scale.
  - now rewrite newAmount_bad_scale by lia.
  - now rewrite newAmount_bad_scale by lia.
  - now rewrite newAmount_bad_scale by lia.
Qed.

Lemma Money_compare_amounts a b c :
  in_int64 a -> in_int64 b ->
  GreaterThan (New a c) (New b c) =
    (if engine_scale (Scale c) then Ok (a >? b) else Err ErrInvalidOperation) /\
  LessThan (New a c) (New b c) =
    (if engine_scale (Scale c) then Ok (a <? b) else Err ErrInvalidOperation) /\
  Equal (New a c) (New b c) = engine_scale (Scale c) && (a =? b).
Proof.
  intros Ha Hb.
  unfold GreaterThan, LessThan, Equal, New. cbn [currency amount].
  rewrite sameCurrency_refl. cbn [negb].
  rewrite Compare_three_way by assumption.
  destruct (engine_scale (Scale c)); cbn [invalid map_err bind andb].
  - unfold three_way. repeat split.
    + destruct (Z.compare_spec a b); cbn; f_equal; lia.
    + destruct (Z.compare_spec a b); cbn; f_equal; lia.
    + destruct (Z.compare_spec a b); cbn; lia.
  - repeat split.
Qed.

End Comparison.

(** X5: [calc.Compare] on [int64] amounts orders them as integers, with the
    results -1, 0 and 1, at every scale from 0 to 19, and fails with the
    engine's invalid-scale error at every other scale; swapping the
    operands negates the result. *)
Theorem Compare_integer_order (a b s : Z) (Ha : in_int64 a) (Hb : in_int64 b) :
  calc.Compare a b s =
    (if engine_scale s then Ok (three_way a b)
     else Err (calc.errDecimal decimal.errInvalidScale)) /\
  (three_way a b = -1 <-> a < b) /\
  (three_way a b = 0 <-> a = b) /\
  (three_way a b = 1 <-> b < a) /\
  three_way b a = - three_way a b.
Proof.
  split; [now apply Compare_three_way|].
  unfold three_way. rewrite (Z.compare_antisym a b).
  destruct (Z.compare_spec a b); cbn; repeat split; intros; try lia; discriminate.
Qed.

Lemma Compare_integer_order_witness :
  calc.Compare 100 200 2 = Ok (-1) /\ calc.Compare 100 200 20
    = Err (calc.errDecimal decimal.errInvalidScale).
Proof.
  assert (Ha : in_int64 100) by (unfold in_int64, MinInt64, MaxInt64; lia).
  assert (Hb : in_int64 200) by (unfold in_int64, MinInt64, MaxInt64; lia).
  split.
  - exact (proj1 (Compare_integer_order 100 200 2 Ha Hb)).
  - exact (proj1 (Compare_integer_order 100 200 20 Ha Hb)).
Defined.

(** X6: for two Money values of one currency with [int64] amounts,
    [GreaterThan], [LessThan] and [Equal] decide the integer order of the
    amounts whenever the currency scale is between 0 and 19, so exactly one
    of the three holds; at any other scale the two orderings fail with
    [ErrInvalidOperation] and [Equal] is false. *)
Theorem comparisons_follow_amounts (a b : Z) (c : Currency)
  (Ha : in_int64 a) (Hb : in_int64 b) :
  GreaterThan (New a c) (New b c) =
    (if engine_scale (Scale c) then Ok (a >? b) else Err ErrInvalidOperation) /\
  LessThan (New a c) (New b c) =
    (if engine_scale (Scale c) then Ok (a <? b) else Err ErrInvalidOperation) /\
  Equal (New a c) (New b c) = engine_scale (Scale c) && (a =? b) /\
  (engine_scale (Scale c) = true ->
     (a >? b) || (a <? b) || (a =? b) = true /\
     (a >? b) && (a <? b) = false /\
     (a >? b) && (a =? b) = false /\
     (a <? b) && (a =? b) = false).
Proof.
  destruct (Money_compare_amounts a b c Ha Hb) as [Hgt [Hlt Heq]].
  split; [exact Hgt|]. split; [exact Hlt|]. split; [exact Heq|].
  intros _. repeat split; lia.
Qed.

Lemma comparisons_follow_amounts_witness :
  GreaterThan (New 700 (mkCurrency "USD" 2 "$")) (New 500 (mkCurrency "USD" 2 "$"))
    = Ok true /\
  LessThan (New 700 (mkCurrency "XTS" 19 "x")) (New 500 (mkCurrency "XTS" 19 "x"))
    = Ok false /\
  GreaterThan (New 700 (mkCurrency "XTS" 20 "x")) (New 500 (mkCurrency "XTS" 20 "x"))
    = Err ErrInvalidOperation.
Proof.
  assert (Ha : in_int64 700) by (unfold in_int64, MinInt64, MaxInt64; lia).
  assert (Hb : in_int64 500) by (unfold in_int64, MinInt64, MaxInt64; lia).
  split; [|split].
  - exact (proj1 (comparisons_follow_amounts 700 500 (mkCurrency "USD" 2 "$") Ha Hb)).
  - exact (proj1 (proj2
      (comparisons_follow_amounts 700 500 (mkCurrency "XTS" 19 "x") Ha Hb))).
  - exact (proj1 (comparisons_follow_amounts 700 500 (mkCurrency "XTS" 20 "x") Ha Hb)).
Defined.

(** X7: the sign predicates agree with comparison against the zero amount of
    the same currency: for an [int64] amount and a currency scale between 0
    and 19, [IsPositive] is [GreaterThan] zero, [IsNegative] is [LessThan]
    zero and [IsZero] is [Equal] to zero; and exactly one of the three
    predicates holds of every Money value. *)
Theorem sign_predicates_compare_with_zero (m : Money)
  (Hm : in_int64 (amount m)) (Hs : engine_scale (Scale (currency m)) = true) :
  GreaterThan m (Zero (currency m)) = Ok (IsPositive m) /\
  LessThan m (Zero (currency m)) = Ok (IsNegative m) /\
  Equal m (Zero (currency m)) = IsZero m /\
  (IsZero m = true /\ IsPositive m = false /\ IsNegative m = false
   \/ IsZero m = false /\ IsPositive m = true /\ IsNegative m = false
   \/ IsZero m = false /\ IsPositive m = false /\ IsNegative m = true) /\
  (signPrefix (amount m) = "-" <-> IsNegative m = true).
Proof.
  destruct m as [a c]. cbn [amount currency] in *.
  assert (H0 : in_int64 0) by (int64_bounds; lia).
  destruct (Money_compare_amounts a 0 c Hm H0) as [Hgt [Hlt Heq]].
  unfold Zero. fold (New a c) (New 0 c).
  rewrite Hgt, Hlt, Heq, Hs. cbn [andb].
  unfold IsPositive, IsNegative, IsZero, New, signPrefix. cbn [amount].
  repeat split; try reflexivity.
  - destruct (Z.compare_spec a 0); [left | right; right | right; left]; lia.
  - destruct (Z.ltb_spec a 0); [reflexivity | discriminate].
  - destruct (Z.ltb_spec a 0); [reflexivity | discriminate].
Qed.

Lemma sign_predicates_compare_with_zero_witness :
  GreaterThan (New (-105) (mkCurrency "USD" 2 "$")) (Zero (mkCurrency "USD" 2 "$"))
    = Ok false /\
  LessThan (New (-105) (mkCurrency "USD" 2 "$")) (Zero (mkCurrency "USD" 2 "$"))
    = Ok true.
Proof.
  assert (Hm : in_int64 (amount (New (-105) (mkCurrency "USD" 2 "$"))))
    by (unfold in_int64, MinInt64, MaxInt64; cbn; lia).
  assert (Hs : engine_scale (Scale (currency (New (-105) (mkCurrency "USD" 2 "$"))))
               = true) by reflexivity.
  destruct (sign_predicates_compare_with_zero _ Hm Hs) as [Hgt [Hlt _]].
  split; [exact Hgt | exact Hlt].
Defined.

(** ** Multiplication and percentages *)

Section Multiplication.

Import decimal.

Lemma prec_fuel_nonneg fuel : forall x, 0 <= prec_fuel fuel x.
Proof.
  induction fuel as [|fuel IH]; intros x; cbn [prec_fuel]; [lia|].
  destruct (x <=? 0); [lia|]. specialize (IH (x / 10)). lia.
Qed.

Lemma prec_fuel_lower k : forall fuel x,
  (k < fuel)%nat -> 10 ^ Z.of_nat k <= x -> Z.of_nat (S k) <= prec_fuel fuel x.
Proof.
  induction k as [|k IH]; intros fuel x Hf Hx.
  - destruct fuel as [|fuel]; [lia|]. cbn [prec_fuel].
    change (10 ^ Z.of_nat 0) with 1 in Hx.
    destruct (Z.leb_spec x 0); [lia|].
    pose proof (prec_fuel_nonneg fuel (x / 10)). lia.
  - destruct fuel as [|fuel]; [lia|]. cbn [prec_fuel].
    assert (Hp : 0 < 10 ^ Z.of_nat k) by (apply Z.pow_pos_nonneg; lia).
    rewrite Nat2Z.inj_succ, Z.pow_succ_r in Hx by lia.
    destruct (Z.leb_spec x 0); [lia|].
    assert (Hd : 10 ^ Z.of_nat k <= x / 10) by (apply Z.div_le_lower_bound; lia).
    specialize (IH fuel (x / 10) ltac:(lia) Hd). lia.
Qed.

Lemma prec_over_19 x : maxFint < x -> 19 < prec x.
Proof.
  intros Hx. unfold maxFint in Hx. unfold prec.
  assert (H19 : 10 ^ Z.of_nat 19 <= x)
    by (change (10 ^ Z.of_nat 19) with 10000000000000000000; lia).
  assert (Hlog : 19 <= Z.log2 x).
  { apply Z.log2_le_pow2; [lia|]. change (2 ^ 19) with 524288. lia. }
  pose proof (prec_fuel_lower 19 (S (Z.to_nat (Z.log2 x))) x ltac:(lia) H19). lia.
Qed.

(** The product of two decimals at the sum of their scales: exact, or
    rejected when its coefficient needs more than 19 digits. *)
Lemma MulExact_full_scale a b sa sb :
  0 <= sa -> 0 <= sb -> sa + sb <= 19 ->
  MulExact (of_signed a sa) (of_signed b sb) (sa + sb) =
    if Z.abs (a * b) <=? maxFint then Ok (of_signed (a * b) (sa + sb))
    else Err errDecimalOverflow.
Proof.
  intros Hsa Hsb Hsum. unfold MulExact, MinScale, MaxScale.
  destruct (Z.ltb_spec (sa + sb) 0); [lia|].
  destruct (Z.gtb_spec (sa + sb) 19); [lia|]. cbn [orb].
  unfold mulFint, mulBint, fint_mul, of_signed. cbn [coef neg scale].
  rewrite Z.abs_mul.
  assert (Hnew : forall n c, 0 <= c -> c <= maxFint ->
            newFromFint n c (sa + sb) (sa + sb) = Ok (newUnsafe n c (sa + sb))).
  { intros n c Hc0 Hc. unfold newFromFint, MaxScale.
    rewrite Z.ltb_irrefl. destruct (Z.gtb_spec (sa + sb) 19); [lia|].
    now apply newSafe_ok. }
  destruct (Z.eqb_spec (Z.abs a) 0) as [Ea | Ea]; cbn [orb].
  { assert (a = 0) as -> by lia. rewrite !Z.mul_0_l. cbn [Z.abs].
    destruct (Z.leb_spec 0 maxFint); [|unfold maxFint in *; lia].
    rewrite Hnew by (unfold maxFint; lia). reflexivity. }
  destruct (Z.eqb_spec (Z.abs b) 0) as [Eb | Eb]; cbn [orb].
  { assert (b = 0) as -> by lia. rewrite !Z.mul_0_r. cbn [Z.abs].
    destruct (Z.leb_spec 0 maxFint); [|unfold maxFint in *; lia].
    rewrite Hnew by (unfold maxFint; lia). reflexivity. }
  destruct (Z.gtb_spec (Z.abs a * Z.abs b) maxFint) as [Hbig | Hfit].
  - destruct (Z.leb_spec (Z.abs a * Z.abs b) maxFint); [lia|].
    unfold newFromBint. cbn [newFromBint_fuel].
    pose proof (prec_over_19 _ Hbig) as Hp. unfold MaxPrec.
    destruct (Z.gtb_spec (prec (Z.abs a * Z.abs b) - (sa + sb)) (19 - (sa + sb)));
      [reflexivity | lia].
  - destruct (Z.leb_spec (Z.abs a * Z.abs b) maxFint); [|lia].
    rewrite Hnew by nia. unfold newUnsafe.
    destruct (Z.eqb_spec (Z.abs a * Z.abs b) 0); [nia|].
    do 2 f_equal.
    destruct (Z.ltb_spec a 0); destruct (Z.ltb_spec b 0);
      destruct (Z.ltb_spec (a * b) 0); cbn; try reflexivity; nia.
Qed.

Lemma Round_again d s :
  0 <= s -> decimal.Round (decimal.Round d s) s = decimal.Round d s.
Proof.
  intros Hs. unfold decimal.Round, MinScale. rewrite Z.max_l by lia.
  destruct (Z.geb_spec s (scale d)) as [Hge | Hlt].
  - destruct (Z.geb_spec s (scale d)); [reflexivity | lia].
  - unfold newUnsafe. cbn [scale]. now rewrite Z.geb_leb, Z.leb_refl.
Qed.

Lemma roundToMinor_Round d s :
  0 <= s -> calc.roundToMinor (decimal.Round d s) s = calc.roundToMinor d s.
Proof. intros Hs. unfold calc.roundToMinor. now rewrite Round_again. Qed.

(** Half-even division of a magnitude by 100. *)
Lemma rshHalfEven_2_nearest c :
  0 <= c ->
  0 <= rshHalfEven c 2 <= c / 100 + 1 /\ nearest_hundredth c (rshHalfEven c 2).
Proof.
  intros Hc. unfold rshHalfEven, nearest_hundredth, pow10.
  change (10 ^ 2) with 100. change (100 / 2) with 50.
  destruct (Z.eqb_spec c 0) as [-> | Hne]; [cbn; lia|].
  cbn [Z.leb Z.compare].
  pose proof (Z.div_mod c 100 ltac:(lia)) as Hdm.
  pose proof (Z.mod_pos_bound c 100 ltac:(lia)) as Hr.
  assert (Hq : 0 <= c / 100) by (apply Z.div_pos; lia).
  destruct (Z.ltb_spec 50 (c - c / 100 * 100)) as [Hup | Hdown]; cbn [orb].
  - split; [lia|]. split; [lia|]. lia.
  - destruct (Z.eqb_spec 50 (c - c / 100 * 100)) as [Htie | Hno]; cbn [andb].
    + destruct (Z.odd (c / 100)) eqn:Eodd.
      * split; [lia|]. split; [lia|]. intros _.
        rewrite Z.even_add, <- Z.negb_odd, Eodd. reflexivity.
      * split; [lia|]. split; [lia|]. intros _.
        now rewrite <- Z.negb_odd, Eodd.
    + split; [lia|]. split; [lia|]. lia.
Qed.

(** A minor-unit value times a multiplier with two fractional digits,
    rounded back to the scale of the value. *)
Lemma multiply_by_hundredths v base s :
  in_int64 v -> in_int64 base -> 0 <= s <= 17 ->
  (out <- calc.multiply (calc.mkAmount (of_signed v s)) (of_signed base 2) ;;
   calc.Round (calc.dec out) s) =
    if Z.abs (v * base) <=? maxFint
    then Ok (minor (v * base <? 0) (rshHalfEven (Z.abs (v * base)) 2))
    else Err (calc.errDecimal errDecimalOverflow).
Proof.
  intros Hv Hb Hs. unfold calc.multiply, decimal.Scale, MaxScale.
  cbn [calc.dec of_signed scale].
  destruct (Z.gtb_spec (s + 2) 19); [lia|].
  fold (of_signed v s) (of_signed base 2).
  rewrite MulExact_full_scale by lia.
  destruct (Z.leb_spec (Z.abs (v * base)) maxFint) as [Hfit | Hbig]; [|reflexivity].
  cbn [calc.lift map_err bind calc.dec]. unfold calc.Round.
  rewrite <- roundToMinor_Round by lia.
  pose proof (rshHalfEven_2_nearest (Z.abs (v * base)) ltac:(lia)) as [Hr _].
  assert (Hq : Z.abs (v * base) / 100 <= 99999999999999999).
  { apply Z.lt_succ_r. apply Z.div_lt_upper_bound; unfold maxFint in *; lia. }
  assert (Hround : decimal.Round (of_signed (v * base) (s + 2)) s =
            mkDecimal (if rshHalfEven (Z.abs (v * base)) 2 =? 0 then false
                       else v * base <? 0)
              (rshHalfEven (Z.abs (v * base)) 2) s).
  { unfold decimal.Round, MinScale, of_signed. cbn [scale coef neg].
    rewrite Z.max_l by lia. destruct (Z.geb_spec s (s + 2)); [lia|].
    replace (s + 2 - s) with 2 by lia.
    assert (Hf : fint_rshHalfEven (Z.abs (v * base)) 2
                 = rshHalfEven (Z.abs (v * base)) 2).
    { unfold fint_rshHalfEven, rshHalfEven.
      destruct (Z.abs (v * base) =? 0); reflexivity. }
    rewrite Hf. reflexivity. }
  rewrite Hround.
  rewrite roundToMinor_same_scale by (unfold maxFint; lia).
  assert (Hminor : minor (if rshHalfEven (Z.abs (v * base)) 2 =? 0 then false
                          else v * base <? 0) (rshHalfEven (Z.abs (v * base)) 2)
                   = minor (v * base <? 0) (rshHalfEven (Z.abs (v * base)) 2)).
  { destruct (Z.eqb_spec (rshHalfEven (Z.abs (v * base)) 2) 0) as [-> | _];
      [|reflexivity].
    unfold minor. now destruct (v * base <? 0). }
  rewrite Hminor.
  assert (Hin : in_int64 (minor (v * base <? 0) (rshHalfEven (Z.abs (v * base)) 2))).
  { unfold minor. destruct (v * base <? 0); int64_bounds; lia. }
  apply in_int64b_true in Hin. unfold in_int64b in Hin. now rewrite Hin.
Qed.

Lemma minor_nearest x :
  nearest_hundredth x (minor (x <? 0) (rshHalfEven (Z.abs x) 2)).
Proof.
  pose proof (rshHalfEven_2_nearest (Z.abs x) ltac:(lia)) as [_ [Hn He]].
  unfold nearest_hundredth, minor in *.
  destruct (Z.ltb_spec x 0).
  - split; [lia|]. intros Ht. rewrite Z.even_opp. apply He. lia.
  - replace (Z.abs x) with x in * by lia. split; [lia|]. exact He.
Qed.

Lemma wrap64_in_int64 x : in_int64 (wrap64 x).
Proof.
  unfold wrap64. int64_bounds.
  pose proof (Z.mod_pos_bound (x + 9223372036854775808) 18446744073709551616
                ltac:(lia)). lia.
Qed.

End Multiplication.

Section PercentOperations.

Lemma percentMultiplier_ok p add :
  calc.percentMultiplier p add =
    Ok (of_signed (if add then wrap64 (100 + p) else wrap64 (100 - p)) 2).
Proof.
  unfold calc.percentMultiplier.
  destruct add; now rewrite New_ok by (try apply wrap64_in_int64; lia).
Qed.

(** [AddPercent] and [SubtractPercent] of package calc, with the base
    [100 + p] or [100 - p] as the code computes it. *)
Lemma percent_operation v p s (add : bool) :
  in_int64 v -> 0 <= s <= 17 ->
  (if add then calc.AddPercent v p s else calc.SubtractPercent v p s) =
    let base := if add then wrap64 (100 + p) else wrap64 (100 - p) in
    if Z.abs (v * base) <=? decimal.maxFint
    then Ok (minor (v * base <? 0) (decimal.rshHalfEven (Z.abs (v * base)) 2))
    else Err (calc.errDecimal decimal.errDecimalOverflow).
Proof.
  intros Hv Hs. cbv zeta.
  destruct add; unfold calc.AddPercent, calc.SubtractPercent;
    rewrite newAmount_ok by (try assumption; lia); cbn [bind];
    unfold calc.addPercent, calc.subtractPercent;
    rewrite percentMultiplier_ok; cbn [bind];
    apply multiply_by_hundredths; try assumption; apply wrap64_in_int64.
Qed.

Lemma newAmount_scale v s a :
  calc.newAmount v s = Ok a -> decimal.scale (calc.dec a) = s.
Proof.
  unfold calc.newAmount, decimal.New. intros H.
  destruct (v >=? 0); [|destruct (v =? MinInt64)];
    match type of H with
    | context [decimal.newSafe ?n ?c ?s] =>
        destruct (decimal.newSafe n c s) as [d | e] eqn:E; [|discriminate]
    end;
    apply newSafe_scale in E; cbn in H; injection H as <-; exact E.
Qed.

Lemma percent_scale_failure v p s (add : bool) :
  s < 0 \/ 17 < s ->
  exists e, (if add then calc.AddPercent v p s else calc.SubtractPercent v p s) = Err e.
Proof.
  intros Hs.
  assert (Hstep : forall m, decimal.scale m = 2 ->
            exists e, (da <- calc.newAmount v s ;;
                       out <- calc.multiply da m ;; calc.Round (calc.dec out) s)
                      = Err e).
  { intros m Hm. destruct (calc.newAmount v s) as [a | e] eqn:Ea; cbn [bind]; [|eauto].
    pose proof (newAmount_scale _ _ _ Ea) as Hsa.
    assert (Hrange : 0 <= s <= 19).
    { destruct (Z.ltb_spec s 0); [rewrite newAmount_bad_scale in Ea by lia; discriminate|].
      destruct (Z.ltb_spec 19 s); [rewrite newAmount_bad_scale in Ea by lia; discriminate|].
      lia. }
    unfold calc.multiply, decimal.Scale, decimal.MaxScale. rewrite Hsa, Hm.
    destruct (Z.gtb_spec (s + 2) 19); [|lia]. cbn [bind]. eauto. }
  destruct add; unfold calc.AddPercent, calc.SubtractPercent,
    calc.addPercent, calc.subtractPercent.
  - destruct (Hstep (of_signed (wrap64 (100 + p)) 2) eq_refl) as [e He].
    exists e. rewrite <- He.
    destruct (calc.newAmount v s); cbn [bind]; [|reflexivity].
    now rewrite percentMultiplier_ok.
  - destruct (Hstep (of_signed (wrap64 (100 - p)) 2) eq_refl) as [e He].
    exists e. rewrite <- He.
    destruct (calc.newAmount v s); cbn [bind]; [|reflexivity].
    now rewrite percentMultiplier_ok.
Qed.

End PercentOperations.

(** X8: [calc.Mul] on [int64] operands is exact and checked: at a scale from
    0 to 18 it returns the integer product whenever that is representable in
    [int64]; it fails whenever the product is not representable; and it
    fails at every other scale. *)
Theorem Mul_checked (v f s : Z) (Hv : in_int64 v) (Hf : in_int64 f) :
  (0 <= s <= 18 -> in_int64 (v * f) -> calc.Mul v f s = Ok (v * f)) /\
  (~ in_int64 (v * f) -> exists e, calc.Mul v f s = Err e) /\
  (s < 0 \/ 18 < s -> exists e, calc.Mul v f s = Err e).
Proof.
  assert (Hbad : s < 0 \/ 18 < s -> exists e, calc.Mul v f s = Err e).
  { intros Hs. unfold calc.Mul.
    destruct (calc.newAmount v s) as [da | e]; [|now exists e]. cbn [bind].
    destruct (calc.lift (decimal.New f 0)) as [m | e]; [|now exists e]. cbn [bind].
    destruct (calc.multiply da m) as [out | e]; [|now exists e]. cbn [bind].
    unfold calc.Round. rewrite roundToMinor_bad_scale by assumption. eauto. }
  assert (Hgood : 0 <= s <= 18 ->
            calc.Mul v f s =
              if Z.abs (v * f) <=? decimal.maxFint
              then if in_int64b (v * f) then Ok (v * f) else Err calc.errOverflow
              else Err (calc.errDecimal decimal.errDecimalOverflow)).
  { intros Hs. unfold calc.Mul.
    rewrite newAmount_ok by (try assumption; lia). cbn [bind].
    rewrite New_ok by (try assumption; lia). cbn [calc.lift map_err bind].
    unfold calc.multiply, decimal.Scale, decimal.MaxScale.
    cbn [calc.dec of_signed decimal.scale].
    destruct (Z.gtb_spec (s + 0) 19); [lia|].
    fold (of_signed v s) (of_signed f 0).
    rewrite MulExact_full_scale by lia.
    destruct (Z.leb_spec (Z.abs (v * f)) decimal.maxFint); [|reflexivity].
    cbn [calc.lift map_err bind calc.dec]. rewrite Z.add_0_r.
    unfold calc.Round, of_signed.
    rewrite roundToMinor_same_scale by lia.
    now rewrite minor_signed. }
  split; [|split; [|exact Hbad]].
  - intros Hs Hin. rewrite Hgood by assumption.
    apply in_int64b_true in Hin. rewrite Hin.
    destruct (Z.leb_spec (Z.abs (v * f)) decimal.maxFint); [reflexivity|].
    apply in_int64b_true in Hin. unfold decimal.maxFint in *. int64_bounds. lia.
  - intros Hout.
    assert (Hcases : 0 <= s <= 18 \/ (s < 0 \/ 18 < s)) by lia.
    destruct Hcases as [Hs | Hs]; [|now apply Hbad].
    rewrite Hgood by assumption. apply in_int64b_false in Hout. rewrite Hout.
    destruct (Z.abs (v * f) <=? decimal.maxFint); eauto.
Qed.

Lemma Mul_checked_witness :
  calc.Mul 1050 2 2 = Ok (1050 * 2) /\ exists e, calc.Mul MaxInt64 2 2 = Err e.
Proof.
  assert (Hv : in_int64 1050) by (unfold in_int64, MinInt64, MaxInt64; lia).
  assert (Hf : in_int64 2) by (unfold in_int64, MinInt64, MaxInt64; lia).
  assert (Hm : in_int64 MaxInt64) by (unfold in_int64, MinInt64, MaxInt64; lia).
  split.
  - destruct (Mul_checked 1050 2 2 Hv Hf) as [Hin _].
    apply Hin; [lia|]. unfold in_int64, MinInt64, MaxInt64. lia.
  - destruct (Mul_checked MaxInt64 2 2 Hm Hf) as [_ [Hout _]].
    apply Hout. unfold in_int64, MinInt64, MaxInt64. lia.
Defined.

(** X9: for an [int64] amount [v] in a currency of scale 0 to 17 and a
    percent [p] for which [100 + p] fits [int64], [AddPercent] returns, in
    the same currency, [v * (100 + p) / 100] rounded to the nearest minor
    unit with ties going to the even one, as long as [v * (100 + p)] has at
    most 19 digits; [SubtractPercent] does the same with [100 - p].  The
    result does not depend on the scale. *)
Theorem percent_rounds_half_even (v p : Z) (c : Currency)
  (Hv : in_int64 v) (Hs : 0 <= Scale c <= 17) :
  (in_int64 (100 + p) -> Z.abs (v * (100 + p)) <= decimal.maxFint ->
     exists r, AddPercent (New v c) p = Ok (New r c)
               /\ nearest_hundredth (v * (100 + p)) r) /\
  (in_int64 (100 - p) -> Z.abs (v * (100 - p)) <= decimal.maxFint ->
     exists r, SubtractPercent (New v c) p = Ok (New r c)
               /\ nearest_hundredth (v * (100 - p)) r).
Proof.
  split; intros Hbase Hfit.
  - pose proof (percent_operation v p (Scale c) true Hv Hs) as Hop.
    cbv beta iota zeta in Hop. rewrite wrap64_id in Hop by assumption.
    apply Z.leb_le in Hfit. rewrite Hfit in Hop.
    eexists. unfold AddPercent, New. cbn [amount currency].
    rewrite Hop. cbn [invalid map_err bind]. split; [reflexivity|].
    apply minor_nearest.
  - pose proof (percent_operation v p (Scale c) false Hv Hs) as Hop.
    cbv beta iota zeta in Hop. rewrite wrap64_id in Hop by assumption.
    apply Z.leb_le in Hfit. rewrite Hfit in Hop.
    eexists. unfold SubtractPercent, New. cbn [amount currency].
    rewrite Hop. cbn [invalid map_err bind]. split; [reflexivity|].
    apply minor_nearest.
Qed.

Lemma percent_rounds_half_even_witness :
  exists r, AddPercent (New 25 (mkCurrency "USD" 2 "$")) (-90)
            = Ok (New r (mkCurrency "USD" 2 "$"))
            /\ nearest_hundredth (25 * (100 + -90)) r.
Proof.
  assert (Hv : in_int64 25) by (unfold in_int64, MinInt64, MaxInt64; lia).
  assert (Hs : 0 <= Scale (mkCurrency "USD" 2 "$") <= 17) by (cbn; lia).
  destruct (percent_rounds_half_even 25 (-90) (mkCurrency "USD" 2 "$") Hv Hs)
    as [Hadd _].
  apply Hadd.
  - unfold in_int64, MinInt64, MaxInt64. lia.
  - unfold decimal.maxFint. lia.
Defined.

(** X10: the percent operations need two spare fractional digits and a
    product of at most 19 digits.  In a currency whose scale is negative or
    above 17 [AddPercent] and [SubtractPercent] always fail with
    [ErrInvalidOperation] (at scale 18 addition still works); and at a scale
    from 0 to 17 they fail whenever the amount times the base [100 + p],
    respectively [100 - p], has more than 19 digits, even when the adjusted
    amount itself would be representable. *)
Theorem percent_failures (v p : Z) (c : Currency) (Hv : in_int64 v) :
  (Scale c < 0 \/ 17 < Scale c ->
     AddPercent (New v c) p = Err ErrInvalidOperation /\
     SubtractPercent (New v c) p = Err ErrInvalidOperation) /\
  (0 <= Scale c <= 17 -> in_int64 (100 + p) ->
     decimal.maxFint < Z.abs (v * (100 + p)) ->
     AddPercent (New v c) p = Err ErrInvalidOperation) /\
  (0 <= Scale c <= 17 -> in_int64 (100 - p) ->
     decimal.maxFint < Z.abs (v * (100 - p)) ->
     SubtractPercent (New v c) p = Err ErrInvalidOperation).
Proof.
  split; [|split].
  - intros Hs. split.
    + destruct (percent_scale_failure v p (Scale c) true Hs) as [e He].
      unfold AddPercent, New. cbn [amount currency]. now rewrite He.
    + destruct (percent_scale_failure v p (Scale c) false Hs) as [e He].
      unfold SubtractPercent, New. cbn [amount currency]. now rewrite He.
  - intros Hs Hbase Hbig.
    pose proof (percent_operation v p (Scale c) true Hv Hs) as Hop.
    cbv beta iota zeta in Hop. rewrite wrap64_id in Hop by assumption.
    destruct (Z.leb_spec (Z.abs (v * (100 + p))) decimal.maxFint); [lia|].
    unfold AddPercent, New. cbn [amount currency]. now rewrite Hop.
  - intros Hs Hbase Hbig.
    pose proof (percent_operation v p (Scale c) false Hv Hs) as Hop.
    cbv beta iota zeta in Hop. rewrite wrap64_id in Hop by assumption.
    destruct (Z.leb_spec (Z.abs (v * (100 - p))) decimal.maxFint); [lia|].
    unfold SubtractPercent, New. cbn [amount currency]. now rewrite Hop.
Qed.

Lemma percent_failures_witness :
  AddPercent (New 100 (mkCurrency "ETH" 18 "E")) 10 = Err ErrInvalidOperation /\
  Add (New 100 (mkCurrency "ETH" 18 "E")) (New 10 (mkCurrency "ETH" 18 "E"))
    = Ok (New 110 (mkCurrency "ETH" 18 "E")) /\
  AddPercent (New 100000000000000000 (mkCurrency "USD" 2 "$")) 0
    = Err ErrInvalidOperation.
Proof.
  assert (Hv : in_int64 100) by (unfold in_int64, MinInt64, MaxInt64; lia).
  assert (Hw : in_int64 100000000000000000)
    by (unfold in_int64, MinInt64, MaxInt64; lia).
  split; [|split].
  - destruct (percent_failures 100 10 (mkCurrency "ETH" 18 "E") Hv) as [Hscale _].
    apply Hscale. cbn. lia.
  - reflexivity.
  - destruct (percent_failures 100000000000000000 0 (mkCurrency "USD" 2 "$") Hw)
      as [_ [Hbig _]].
    apply Hbig.
    + cbn. lia.
    + unfold in_int64, MinInt64, MaxInt64. lia.
    + unfold decimal.maxFint. lia.
Defined.

(** ** Algebra of Add and Sub *)

Section FacadeAlgebra.

Lemma sameCurrency_sym a b : sameCurrency a b = sameCurrency b a.
Proof.
  unfold sameCurrency.
  now rewrite (String.eqb_sym (Code a)), (Z.eqb_sym (Scale a)),
    (String.eqb_sym (Symbol a)).
Qed.

(** [Add] and [Sub] on operands of one currency, at any scale. *)
Lemma Money_Add_any_scale a b c :
  in_int64 a -> in_int64 b ->
  Add (New a c) (New b c) =
    if (0 <=? Scale c) && (Scale c <=? 18) && in_int64b (a + b)
    then Ok (New (a + b) c) else Err ErrInvalidOperation.
Proof.
  intros Ha Hb.
  destruct (Z.leb_spec 0 (Scale c)); destruct (Z.leb_spec (Scale c) 18); cbn [andb];
    try (apply Money_Add_bad_scale; lia).
  now apply Money_Add_exact.
Qed.

Lemma Money_Sub_any_scale a b c :
  in_int64 a -> in_int64 b ->
  Sub (New a c) (New b c) =
    if (0 <=? Scale c) && (Scale c <=? 18) && in_int64b (a - b)
    then Ok (New (a - b) c) else Err ErrInvalidOperation.
Proof.
  intros Ha Hb.
  destruct (Z.leb_spec 0 (Scale c)); destruct (Z.leb_spec (Scale c) 18); cbn [andb];
    try (apply Money_Sub_bad_scale; lia).
  now apply Money_Sub_exact.
Qed.

End FacadeAlgebra.

(** X11: [Add] is commutative on Money values with [int64] amounts: both
    orders give the same Money or the same failure, whatever the currencies
    and the scale. *)
Theorem Add_commutative (a b : Money)
  (Ha : in_int64 (amount a)) (Hb : in_int64 (amount b)) :
  Add a b = Add b a.
Proof.
  destruct (sameCurrency (currency a) (currency b)) eqn:E.
  - apply sameCurrency_eq in E. destruct a as [x c], b as [y c'].
    cbn [amount currency] in *. subst c'. fold (New x c) (New y c).
    rewrite !Money_Add_any_scale by assumption.
    now rewrite (Z.add_comm y x).
  - unfold Add. rewrite (sameCurrency_sym (currency b)), E. reflexivity.
Qed.

Lemma Add_commutative_witness :
  Add (New 1050 (mkCurrency "USD" 2 "$")) (New MaxInt64 (mkCurrency "USD" 2 "$"))
  = Add (New MaxInt64 (mkCurrency "USD" 2 "$")) (New 1050 (mkCurrency "USD" 2 "$")).
Proof.
  apply Add_commutative; unfold in_int64, MinInt64, MaxInt64; cbn; lia.
Defined.

(** X12: in a currency of scale 0 to 18, for [int64] amounts: the zero amount
    is neutral for [Add] and [Sub], subtracting a value from itself gives the
    zero amount, and when the difference of [a] and [b] is representable,
    subtracting [b] and then adding it back returns [a]. *)
Theorem Sub_then_Add (a b : Z) (c : Currency)
  (Ha : in_int64 a) (Hb : in_int64 b) (Hs : 0 <= Scale c <= 18) :
  Add (New a c) (Zero c) = Ok (New a c) /\
  Add (Zero c) (New a c) = Ok (New a c) /\
  Sub (New a c) (Zero c) = Ok (New a c) /\
  Sub (New a c) (New a c) = Ok (Zero c) /\
  (in_int64 (a - b) ->
     exists r, Sub (New a c) (New b c) = Ok r /\ Add r (New b c) = Ok (New a c)).
Proof.
  assert (H0 : in_int64 0) by (int64_bounds; lia).
  unfold Zero. fold (New 0 c).
  rewrite !Money_Add_exact, !Money_Sub_exact by assumption.
  rewrite Z.add_0_r, Z.add_0_l, Z.sub_0_r, Z.sub_diag.
  apply in_int64b_true in Ha. rewrite Ha. apply in_int64b_true in Ha.
  repeat split.
  intros Hd. exists (New (a - b) c).
  rewrite Money_Add_exact by assumption.
  apply in_int64b_true in Hd. rewrite Hd.
  replace (a - b + b) with a by lia.
  apply in_int64b_true in Ha. now rewrite Ha.
Qed.

Lemma Sub_then_Add_witness :
  exists r, Sub (New 1050 (mkCurrency "USD" 2 "$")) (New 250 (mkCurrency "USD" 2 "$"))
            = Ok r
            /\ Add r (New 250 (mkCurrency "USD" 2 "$"))
               = Ok (New 1050 (mkCurrency "USD" 2 "$")).
Proof.
  assert (Ha : in_int64 1050) by (unfold in_int64, MinInt64, MaxInt64; lia).
  assert (Hb : in_int64 250) by (unfold in_int64, MinInt64, MaxInt64; lia).
  assert (Hs : 0 <= Scale (mkCurrency "USD" 2 "$") <= 18) by (cbn; lia).
  destruct (Sub_then_Add 1050 250 (mkCurrency "USD" 2 "$") Ha Hb Hs)
    as [_ [_ [_ [_ Hinv]]]].
  apply Hinv. unfold in_int64, MinInt64, MaxInt64. lia.
Defined.

(** X13: [Add] is associative where both groupings succeed: if [a + b],
    then [(a + b) + c], and also [b + c] are computed without failure, then
    [a + (b + c)] succeeds with the same Money.  The grouping matters for
    failure only: [(MaxInt64 + 1) + (-1)] fails in its first step while
    [MaxInt64 + (1 + (-1))] succeeds. *)
Theorem Add_associative (a b c ab abc bc : Money)
  (Ha : in_int64 (amount a)) (Hb : in_int64 (amount b)) (Hc : in_int64 (amount c))
  (Hab : Add a b = Ok ab) (Habc : Add ab c = Ok abc) (Hbc : Add b c = Ok bc) :
  Add a bc = Ok abc.
Proof.
  assert (Hcur : forall m x r, Add m x = Ok r -> currency m = currency x).
  { intros m x r H. unfold Add in H.
    destruct (sameCurrency (currency m) (currency x)) eqn:E; [|discriminate].
    now apply sameCurrency_eq in E. }
  pose proof (Hcur _ _ _ Hab) as E1. pose proof (Hcur _ _ _ Hbc) as E2.
  destruct a as [x cu], b as [y cu'], c as [z cu'']. cbn [amount currency] in *.
  subst cu' cu''. fold (New x cu) (New y cu) (New z cu) in *.
  rewrite Money_Add_any_scale in Hab, Hbc by assumption.
  destruct ((0 <=? Scale cu) && (Scale cu <=? 18)) eqn:Es; cbn [andb] in *;
    [|discriminate].
  destruct (in_int64b (x + y)) eqn:Exy; [|discriminate].
  destruct (in_int64b (y + z)) eqn:Eyz; [|discriminate].
  injection Hab as <-. injection Hbc as <-.
  apply in_int64b_true in Exy, Eyz.
  rewrite Money_Add_any_scale in Habc by assumption.
  rewrite Money_Add_any_scale by assumption.
  rewrite Es in *. cbn [andb] in *.
  rewrite Z.add_assoc. exact Habc.
Qed.

Lemma Add_associative_witness :
  Add (New 1 (mkCurrency "USD" 2 "$")) (New 5 (mkCurrency "USD" 2 "$"))
  = Ok (New 6 (mkCurrency "USD" 2 "$")) /\
  Add (New MaxInt64 (mkCurrency "USD" 2 "$")) (New 1 (mkCurrency "USD" 2 "$"))
  = Err ErrInvalidOperation /\
  Add (New MaxInt64 (mkCurrency "USD" 2 "$")) (New 0 (mkCurrency "USD" 2 "$"))
  = Ok (New MaxInt64 (mkCurrency "USD" 2 "$")).
Proof.
  split; [|split; reflexivity].
  apply (Add_associative (New 1 (mkCurrency "USD" 2 "$"))
           (New 2 (mkCurrency "USD" 2 "$")) (New 3 (mkCurrency "USD" 2 "$"))
           (New 3 (mkCurrency "USD" 2 "$")) (New 6 (mkCurrency "USD" 2 "$"))
           (New 5 (mkCurrency "USD" 2 "$")));
    try reflexivity; unfold in_int64, MinInt64, MaxInt64; cbn; lia.
Defined.

(** ** Strings: digits, splitting and grouping *)

Section Strings.

Lemma append_nil_r s : s ++ "" = s.
Proof. induction s as [|c s IH]; cbn; [reflexivity | now rewrite IH]. Qed.

Lemma append_assoc s1 s2 s3 : (s1 ++ s2) ++ s3 = s1 ++ s2 ++ s3.
Proof. induction s1 as [|c s1 IH]; cbn; [reflexivity | now rewrite IH]. Qed.

Lemma length_append s1 s2 :
  String.length (s1 ++ s2) = (String.length s1 + String.length s2)%nat.
Proof. induction s1 as [|c s1 IH]; cbn; [reflexivity | now rewrite IH]. Qed.

Lemma substring_0_0 s : substring 0 0 s = "".
Proof. now destruct s. Qed.

Lemma substring_all s : substring 0 (String.length s) s = s.
Proof. induction s as [|c s IH]; cbn; [reflexivity | now rewrite IH]. Qed.

Lemma substring_prefix_suffix s : forall n,
  (n <= String.length s)%nat ->
  substring 0 n s ++ substring n (String.length s - n) s = s.
Proof.
  induction s as [|c s IH]; intros n Hn.
  - cbn in Hn. assert (n = 0)%nat as -> by lia. reflexivity.
  - destruct n as [|n].
    + rewrite substring_0_0, Nat.sub_0_r. cbn [append]. apply substring_all.
    + cbn in Hn. cbn. f_equal. apply IH. lia.
Qed.

Lemma length_substring s : forall n m,
  (n + m <= String.length s)%nat -> String.length (substring n m s) = m.
Proof.
  induction s as [|c s IH]; intros n m H.
  - cbn in H. assert (n = 0 /\ m = 0)%nat as [-> ->] by lia. reflexivity.
  - destruct n as [|n].
    + destruct m as [|m]; [reflexivity|]. cbn. f_equal. apply IH. cbn in H. lia.
    + cbn. apply IH. cbn in H. lia.
Qed.

Lemma length_repeat_nat s n :
  String.length (repeat_nat s n) = (n * String.length s)%nat.
Proof.
  induction n as [|n IH]; cbn; [reflexivity|]. now rewrite length_append, IH.
Qed.

(** The two parts of a string cut at byte [k]. *)
Lemma slice_cut s k :
  0 <= k <= len s ->
  slice s 0 k ++ slice s k (len s) = s
  /\ len (slice s 0 k) = k /\ len (slice s k (len s)) = len s - k.
Proof.
  intros Hk. unfold slice, len in *.
  replace (Z.to_nat 0) with 0%nat by reflexivity.
  replace (Z.to_nat (k - 0)) with (Z.to_nat k) by (f_equal; lia).
  replace (Z.to_nat (Z.of_nat (String.length s) - k))
    with (String.length s - Z.to_nat k)%nat by lia.
  split; [apply substring_prefix_suffix; lia|].
  rewrite !length_substring by lia. lia.
Qed.

Lemma splitAmount_cut digits scale :
  0 < scale ->
  let padded :=
    if len digits <=? scale then Repeat "0" (scale - len digits + 1) ++ digits
    else digits in
  fst (splitAmount digits scale) ++ snd (splitAmount digits scale) = padded
  /\ len (snd (splitAmount digits scale)) = scale
  /\ len (fst (splitAmount digits scale)) = Z.max (len digits - scale) 1.
Proof.
  intros Hs. cbv zeta. unfold splitAmount.
  destruct (Z.leb_spec scale 0); [lia|].
  set (padded := if len digits <=? scale
                 then Repeat "0" (scale - len digits + 1) ++ digits else digits).
  assert (Hlen : len padded = Z.max (len digits) (scale + 1)).
  { unfold padded. destruct (Z.leb_spec (len digits) scale).
    - unfold len, Repeat in *. rewrite length_append, length_repeat_nat. cbn. lia.
    - lia. }
  cbn [fst snd].
  destruct (slice_cut padded (len padded - scale) ltac:(lia)) as [Hcat [Hl1 Hl2]].
  split; [exact Hcat|]. split; lia.
Qed.

End Strings.

(** X14: [splitAmount] cuts the digit string at the currency scale.  With a
    scale of 0 or less the digits are the integer part and there is no
    fractional part.  With a positive scale the digits, left-padded with
    zeros to [scale + 1] characters when they are shorter, are the integer
    part followed by the fractional part; the fractional part has exactly
    [scale] characters and the integer part at least one. *)
Theorem splitAmount_parts (digits : string) (scale : Z) :
  (scale <= 0 -> splitAmount digits scale = (digits, "")) /\
  (0 < scale ->
     fst (splitAmount digits scale) ++ snd (splitAmount digits scale)
       = (if len digits <=? scale
          then Repeat "0" (scale - len digits + 1) ++ digits else digits)
     /\ len (snd (splitAmount digits scale)) = scale
     /\ len (fst (splitAmount digits scale)) = Z.max (len digits - scale) 1).
Proof.
  split.
  - intros Hs. unfold splitAmount. destruct (Z.leb_spec scale 0); [reflexivity | lia].
  - intros Hs. exact (splitAmount_cut digits scale Hs).
Qed.

Lemma splitAmount_parts_witness :
  splitAmount "5" 2 = ("0", "05") /\ len (snd (splitAmount "5" 2)) = 2.
Proof.
  split; [reflexivity|].
  destruct (splitAmount_parts "5" 2) as [_ Hpos].
  destruct (Hpos ltac:(lia)) as [_ [Hfrac _]]. exact Hfrac.
Defined.

Section Grouping.

Lemma concat_empty_cons x l : String.concat "" (x :: l) = x ++ String.concat "" l.
Proof. destruct l; cbn; [now rewrite append_nil_r | reflexivity]. Qed.

Lemma concat_head sep h : forall gs,
  String.concat sep (h :: gs) = h ++ String.concat "" (map (append sep) gs).
Proof.
  intros gs. revert h. induction gs as [|g gs IH]; intros h.
  - cbn. now rewrite append_nil_r.
  - change (String.concat sep (h :: g :: gs))
      with (h ++ sep ++ String.concat sep (g :: gs)).
    rewrite IH. cbn [map]. rewrite concat_empty_cons.
    now rewrite append_assoc.
Qed.

(** The loop of [groupThousands] on a rest of [3 * k] bytes appends [k]
    groups of three bytes, each after a separator. *)
Lemma group_loop_groups k : forall fuel rest sep out,
  String.length rest = (3 * k)%nat -> (k <= fuel)%nat ->
  exists groups,
    List.length groups = k
    /\ Forall (fun g => String.length g = 3%nat) groups
    /\ rest = String.concat "" groups
    /\ group_loop fuel rest sep out
       = out ++ String.concat "" (map (append sep) groups).
Proof.
  induction k as [|k IH]; intros fuel rest sep out Hlen Hfuel.
  - exists []. destruct rest; [|discriminate].
    repeat split; [constructor|].
    destruct fuel; cbn; now rewrite append_nil_r.
  - destruct fuel as [|fuel]; [lia|]. cbn [group_loop].
    assert (Hl : len rest = Z.of_nat (3 * S k)) by (unfold len; now rewrite Hlen).
    destruct (Z.leb_spec (len rest) 0); [lia|].
    destruct (slice_cut rest 3 ltac:(lia)) as [Hcat [Hl1 Hl2]].
    destruct (IH fuel (slice rest 3 (len rest)) sep (out ++ sep ++ slice rest 0 3))
      as [groups [Hn [Hall [Hrest Hloop]]]].
    { unfold len in *. lia. }
    { lia. }
    exists (slice rest 0 3 :: groups). split; [cbn; lia|]. split; [|split].
    + constructor; [unfold len in Hl1; lia | exact Hall].
    + rewrite concat_empty_cons, <- Hrest. symmetry. exact Hcat.
    + rewrite Hloop. cbn [map]. rewrite concat_empty_cons.
      now rewrite !append_assoc.
Qed.

Lemma groupThousands_groups intPart sep :
  exists head groups,
    intPart = String.concat "" (head :: groups)
    /\ Forall (fun g => String.length g = 3%nat) groups
    /\ (len intPart <= 3 -> groups = [])
    /\ (intPart <> "" -> 1 <= len head <= 3)
    /\ groupThousands intPart sep = String.concat sep (head :: groups).
Proof.
  unfold groupThousands.
  destruct (Z.leb_spec (len intPart) 3) as [Hshort | Hlong].
  - exists intPart, []. split; [reflexivity|]. split; [constructor|].
    split; [reflexivity|]. split; [|reflexivity].
    intros Hne. destruct intPart; [contradiction|].
    unfold len in *. cbn [String.length] in *. lia.
  - set (start := if len intPart mod 3 =? 0 then 3 else len intPart mod 3).
    assert (Hstart : 1 <= start <= 3 /\ (len intPart - start) mod 3 = 0).
    { unfold start. destruct (Z.eqb_spec (len intPart mod 3) 0);
        Z.div_mod_to_equations; lia. }
    destruct Hstart as [Hs Hmod].
    assert (Hk : exists k, (len intPart - start) = Z.of_nat (3 * k)).
    { exists (Z.to_nat ((len intPart - start) / 3)).
      Z.div_mod_to_equations. lia. }
    destruct Hk as [k Hk].
    destruct (slice_cut intPart start ltac:(lia)) as [Hcat [Hl1 Hl2]].
    destruct (group_loop_groups k (String.length intPart)
                (slice intPart start (len intPart)) sep (slice intPart 0 start))
      as [groups [Hn [Hall [Hrest Hloop]]]].
    { unfold len in *. lia. }
    { unfold len in *. lia. }
    exists (slice intPart 0 start), groups. split; [|split; [|split; [|split]]].
    + rewrite concat_empty_cons, <- Hrest. symmetry. exact Hcat.
    + exact Hall.
    + lia.
    + intros _. lia.
    + rewrite Hloop. symmetry. apply concat_head.
Qed.

End Grouping.

(** X15: [groupThousands] only inserts separators.  The integer part is a
    head of one to three characters followed by groups of exactly three
    characters; the result is the head and the groups joined by the
    separator, so joining them by the empty string gives the integer part
    back.  A part of at most three characters has no group and is returned
    unchanged. *)
Theorem groupThousands_joins (intPart sep : string) :
  exists head groups,
    intPart = String.concat "" (head :: groups)
    /\ groupThousands intPart sep = String.concat sep (head :: groups)
    /\ Forall (fun g => String.length g = 3%nat) groups
    /\ (len intPart <= 3 -> groups = [] /\ groupThousands intPart sep = intPart)
    /\ (intPart <> "" -> 1 <= len head <= 3).
Proof.
  destruct (groupThousands_groups intPart sep)
    as [head [groups [Hint [Hall [Hshort [Hhead Hout]]]]]].
  exists head, groups. repeat split; try assumption.
  - now apply Hshort.
  - unfold groupThousands. destruct (Z.leb_spec (len intPart) 3); [reflexivity | lia].
  - now apply Hhead.
  - now apply Hhead.
Qed.

Lemma groupThousands_joins_witness :
  groupThousands "1234567" "." = String.concat "." ["1"; "234"; "567"]
  /\ groupThousands "123" "." = "123".
Proof.
  split; [reflexivity|].
  destruct (groupThousands_joins "123" ".") as [head [groups [_ [_ [_ [Hshort _]]]]]].
  apply Hshort. cbn. lia.
Defined.

(** ** Digits of the magnitude *)

Section Digits.

Lemma formatUint_fuel_acc fuel : forall x acc,
  formatUint_fuel fuel x acc = formatUint_fuel fuel x "" ++ acc.
Proof.
  induction fuel as [|fuel IH]; intros x acc; [reflexivity|].
  cbn [formatUint_fuel]. destruct (x / 10 =? 0); [reflexivity|].
  rewrite (IH _ (String _ acc)), (IH _ (String _ "")).
  now rewrite append_assoc.
Qed.

Lemma parseUint_acc_app s1 : forall s2 a,
  parseUint_acc (s1 ++ s2) a = parseUint_acc s2 (parseUint_acc s1 a).
Proof. induction s1 as [|c s1 IH]; intros s2 a; cbn; [reflexivity | apply IH]. Qed.

Lemma all_digits_app s1 s2 :
  all_digits (s1 ++ s2) = all_digits s1 && all_digits s2.
Proof.
  induction s1 as [|c s1 IH]; cbn; [reflexivity|].
  now rewrite IH, andb_assoc.
Qed.

Lemma digit_value d :
  0 <= d < 10 ->
  Z.of_nat (nat_of_ascii (digit d)) - 48 = d /\ is_digit (digit d) = true.
Proof.
  intros Hd. unfold digit, is_digit.
  rewrite nat_ascii_embedding by lia. split; [lia|].
  apply andb_true_iff. split; apply Nat.leb_le; lia.
Qed.

Lemma formatUint_fuel_digits fuel : forall x,
  0 <= x < 10 ^ Z.of_nat fuel ->
  parseUint (formatUint_fuel fuel x "") = x
  /\ all_digits (formatUint_fuel fuel x "") = true.
Proof.
  induction fuel as [|fuel IH]; intros x Hx.
  - change (10 ^ Z.of_nat 0) with 1 in Hx. assert (x = 0) as -> by lia.
    split; reflexivity.
  - rewrite Nat2Z.inj_succ, Z.pow_succ_r in Hx by lia.
    cbn [formatUint_fuel].
    pose proof (Z.mod_pos_bound x 10 ltac:(lia)) as Hm.
    pose proof (Z.div_mod x 10 ltac:(lia)) as Hdm.
    destruct (digit_value (x mod 10) Hm) as [Hv Hd].
    destruct (Z.eqb_spec (x / 10) 0) as [Hz | Hnz].
    + unfold parseUint. cbn [parseUint_acc all_digits]. rewrite Hd. split; [lia|reflexivity].
    + rewrite formatUint_fuel_acc.
      assert (Hq : 0 <= x / 10 < 10 ^ Z.of_nat fuel).
      { split; [apply Z.div_pos; lia|]. apply Z.div_lt_upper_bound; lia. }
      destruct (IH (x / 10) Hq) as [Hp Ha].
      unfold parseUint in *. rewrite parseUint_acc_app, Hp, all_digits_app, Ha.
      cbn [parseUint_acc all_digits]. rewrite Hd. split; [lia|reflexivity].
Qed.

Lemma formatUint_fuel_nonempty fuel x acc :
  formatUint_fuel (S fuel) x acc <> "".
Proof.
  cbn [formatUint_fuel]. destruct (x / 10 =? 0); [discriminate|].
  rewrite formatUint_fuel_acc. destruct (formatUint_fuel fuel (x / 10) ""); discriminate.
Qed.

Lemma absInt64String_nonempty a : absInt64String a <> "".
Proof.
  unfold absInt64String, FormatUint.
  destruct (a >=? 0); [|destruct (a =? MinInt64)]; apply formatUint_fuel_nonempty.
Qed.

End Digits.

(** X16: for every [int64] amount, [absInt64String] writes the magnitude of
    the amount, [MinInt64] included: the text is not empty, consists of
    decimal digits only, and reads back as the absolute value. *)
Theorem absInt64String_magnitude (a : Z) (Ha : in_int64 a) :
  parseUint (absInt64String a) = Z.abs a /\
  all_digits (absInt64String a) = true /\
  absInt64String a <> "".
Proof.
  rewrite absInt64String_abs by assumption. unfold FormatUint.
  assert (Hx : 0 <= Z.abs a < 10 ^ Z.of_nat 20).
  { change (10 ^ Z.of_nat 20) with 100000000000000000000. int64_bounds. lia. }
  destruct (formatUint_fuel_digits 20 (Z.abs a) Hx) as [Hp Hd].
  split; [exact Hp|]. split; [exact Hd|]. apply formatUint_fuel_nonempty.
Qed.

Lemma absInt64String_magnitude_witness :
  in_int64 MinInt64 /\ parseUint (absInt64String MinInt64) = 9223372036854775808.
Proof.
  assert (Ha : in_int64 MinInt64) by (unfold in_int64, MinInt64, MaxInt64; lia).
  split; [exact Ha|].
  exact (proj1 (absInt64String_magnitude MinInt64 Ha)).
Defined.

(** ** Default rendering *)

Section DefaultRendering.

Lemma formatSymbol_valid cur cfg :
  validateFormat cfg = None -> exists symbol, formatSymbol cur cfg = Ok symbol.
Proof.
  intros Hv. apply validateFormat_valid in Hv. unfold violates in Hv.
  unfold formatSymbol.
  destruct (Z.eqb_spec (SymbolKind cfg) SymbolUseCurrencySymbol); [eauto|].
  destruct (Z.eqb_spec (SymbolKind cfg) SymbolUseCurrencyCode); [eauto|].
  destruct (Z.eqb_spec (SymbolKind cfg) SymbolUseCustom); [|tauto].
  destruct (String.eqb_spec (CustomSymbol cfg) ""); [tauto | eauto].
Qed.

Lemma nonempty_len s : s <> "" <-> 1 <= len s.
Proof.
  unfold len. destruct s; cbn [String.length]; split; intros H;
    try lia; try discriminate. now elim H.
Qed.

Lemma append_nonempty_l s1 s2 : s1 <> "" -> s1 ++ s2 <> "".
Proof. destruct s1; [intros H; now elim H | discriminate]. Qed.

Lemma append_nonempty_r s1 s2 : s2 <> "" -> s1 ++ s2 <> "".
Proof. destruct s1; [trivial | discriminate]. Qed.

Lemma groupThousands_nonempty intPart sep :
  intPart <> "" -> groupThousands intPart sep <> "".
Proof.
  intros Hne.
  destruct (groupThousands_groups intPart sep)
    as [head [groups [_ [_ [_ [Hhead ->]]]]]].
  rewrite concat_head. apply append_nonempty_l.
  apply nonempty_len. now apply Hhead.
Qed.

Lemma amountText_nonempty m cfg : amountText m cfg <> "".
Proof.
  unfold amountText.
  pose proof (absInt64String_nonempty (amount m)) as Hd.
  assert (Hint : fst (splitAmount (absInt64String (amount m)) (Scale (currency m)))
                 <> "").
  { destruct (Z.leb_spec (Scale (currency m)) 0) as [Hs | Hs].
    - unfold splitAmount. destruct (Z.leb_spec (Scale (currency m)) 0); [exact Hd | lia].
    - apply nonempty_len.
      destruct (splitAmount_cut (absInt64String (amount m)) (Scale (currency m)) Hs)
        as [_ [_ Hl]]. lia. }
  destruct (splitAmount (absInt64String (amount m)) (Scale (currency m)))
    as [intPart fracPart]. cbn [fst] in Hint.
  assert (Hg : (if negb (ThousandsSeparator cfg =? "")%string
                then groupThousands intPart (ThousandsSeparator cfg) else intPart)
               <> "").
  { destruct (negb (ThousandsSeparator cfg =? "")%string);
      [now apply groupThousands_nonempty | exact Hint]. }
  destruct (negb (fracPart =? "")%string); [now apply append_nonempty_l | exact Hg].
Qed.

Lemma formatWithConfig_valid m cfg :
  validateFormat cfg = None ->
  exists text, formatWithConfig m cfg = Ok text /\ text <> "".
Proof.
  intros Hv. destruct (formatSymbol_valid (currency m) cfg Hv) as [symbol Hsym].
  unfold formatWithConfig. rewrite Hsym. cbn [bind].
  pose proof (amountText_nonempty m cfg) as Ha.
  destruct (SymbolPosition cfg =? SymbolSuffix); eexists; split; try reflexivity.
  - apply append_nonempty_r. now apply append_nonempty_l.
  - apply append_nonempty_r. apply append_nonempty_r. now apply append_nonempty_r.
Qed.

End DefaultRendering.

(** X17: [String] never swallows a failure on a store reached from the
    initial default through [SetFormat] calls: it returns exactly the text
    that [Format] produces under the stored configuration, and that text is
    not empty.  In particular, after a [SetFormat] that accepted a
    configuration, [String] renders every value as [Format] does under that
    configuration. *)
Theorem String_renders_stored_format (cfgs : list FormatConfig) (m : Money) :
  let st := run cfgs init in
  Format m (DefaultFormat st) = Ok (String_ st m) /\
  String_ st m <> "" /\
  (forall cfg text,
     Format m cfg = Ok text ->
     snd (SetFormat cfg st) = None /\ String_ (fst (SetFormat cfg st)) m = text).
Proof.
  cbv zeta. unfold DefaultFormat.
  pose proof (run_valid cfgs init eq_refl) as Hv.
  destruct (formatWithConfig_valid m (run cfgs init) Hv) as [text [Htext Hne]].
  assert (Hstr : String_ (run cfgs init) m = text)
    by (unfold String_, DefaultFormat; now rewrite Htext).
  split; [|split].
  - unfold Format. now rewrite Hv, Hstr.
  - now rewrite Hstr.
  - intros cfg text' Hfmt. unfold Format in Hfmt. unfold SetFormat.
    destruct (validateFormat cfg); [discriminate|]. cbn [fst snd].
    split; [reflexivity|]. unfold String_, DefaultFormat. now rewrite Hfmt.
Qed.

Lemma String_renders_stored_format_witness :
  String_ (fst (SetFormat (mkFormatConfig "," "." SymbolSuffix SymbolUseCurrencySymbol
                             "" true) init))
    (New 123456789 (mkCurrency "EUR" 2 "E")) = "1.234.567,89 E".
Proof.
  destruct (String_renders_stored_format [] (New 123456789 (mkCurrency "EUR" 2 "E")))
    as [_ [_ Hset]].
  apply (Hset (mkFormatConfig "," "." SymbolSuffix SymbolUseCurrencySymbol "" true)).
  reflexivity.
Defined.

(** ** Equality and order of Money values *)

Section MoneyOrder.

Lemma Money_eta (m : Money) : New (amount m) (currency m) = m.
Proof. now destruct m. Qed.

Lemma LessThan_true m x :
  in_int64 (amount m) -> in_int64 (amount x) ->
  (LessThan m x = Ok true <->
   currency m = currency x /\ engine_scale (Scale (currency m)) = true
   /\ amount m < amount x).
Proof.
  intros Hm Hx. destruct (sameCurrency (currency m) (currency x)) eqn:E.
  - apply sameCurrency_eq in E. destruct m as [a c], x as [b c'].
    cbn [amount currency] in *. subst c'. fold (New a c) (New b c).
    destruct (Money_compare_amounts a b c Hm Hx) as [_ [-> _]].
    destruct (engine_scale (Scale c)).
    + split.
      * intros [= H]. repeat split. lia.
      * intros [_ [_ H]]. f_equal. lia.
    + split; [discriminate | intros [_ [H _]]; discriminate].
  - unfold LessThan. rewrite E. cbn [negb]. split; [discriminate|].
    intros [H _]. apply sameCurrency_eq in H. congruence.
Qed.

End MoneyOrder.

(** X18: on Money values with [int64] amounts [Equal] is symmetric, and it is
    true exactly when the two values are identical (same amount, same code,
    scale and symbol) and the currency scale is between 0 and 19. *)
Theorem Equal_identity (a b : Money)
  (Ha : in_int64 (amount a)) (Hb : in_int64 (amount b)) :
  Equal a b = Equal b a /\
  (Equal a b = true <-> a = b /\ engine_scale (Scale (currency a)) = true).
Proof.
  destruct (sameCurrency (currency a) (currency b)) eqn:E.
  - apply sameCurrency_eq in E. destruct a as [x c], b as [y c'].
    cbn [amount currency] in *. subst c'. fold (New x c) (New y c).
    destruct (Money_compare_amounts x y c Ha Hb) as [_ [_ ->]].
    destruct (Money_compare_amounts y x c Hb Ha) as [_ [_ ->]].
    split; [now rewrite (Z.eqb_sym y x)|].
    rewrite andb_true_iff, Z.eqb_eq. split.
    + intros [Hs ->]. split; [reflexivity | exact Hs].
    + intros [[= ->] Hs]. split; [exact Hs | reflexivity].
  - unfold Equal. rewrite (sameCurrency_sym (currency b)), E. cbn [negb].
    split; [reflexivity|]. split; [discriminate|].
    intros [-> _]. rewrite sameCurrency_refl in E. discriminate.
Qed.

Lemma Equal_identity_witness :
  Equal (New 500 (mkCurrency "USD" 2 "$")) (New 500 (mkCurrency "USD" 2 "$")) = true.
Proof.
  assert (Ha : in_int64 (amount (New 500 (mkCurrency "USD" 2 "$"))))
    by (unfold in_int64, MinInt64, MaxInt64; cbn; lia).
  destruct (Equal_identity _ _ Ha Ha) as [_ Hiff].
  apply Hiff. split; reflexivity.
Defined.

(** X19: [LessThan] and [GreaterThan] form a strict order on Money values
    with [int64] amounts: [GreaterThan a b] is [LessThan b a], failures
    included; no value is less than itself; [LessThan] is transitive; and
    when [a] is less than [b], [b] is not less than [a]. *)
Theorem LessThan_strict_order (a b c : Money)
  (Ha : in_int64 (amount a)) (Hb : in_int64 (amount b)) (Hc : in_int64 (amount c)) :
  GreaterThan a b = LessThan b a /\
  LessThan a a <> Ok true /\
  (LessThan a b = Ok true -> LessThan b c = Ok true -> LessThan a c = Ok true) /\
  (LessThan a b = Ok true -> LessThan b a = Ok false).
Proof.
  split; [|split; [|split]].
  - destruct (sameCurrency (currency a) (currency b)) eqn:E.
    + apply sameCurrency_eq in E. destruct a as [x cu], b as [y cu'].
      cbn [amount currency] in *. subst cu'. fold (New x cu) (New y cu).
      destruct (Money_compare_amounts x y cu Ha Hb) as [-> _].
      destruct (Money_compare_amounts y x cu Hb Ha) as [_ [-> _]].
      now rewrite Z.gtb_ltb.
    + unfold GreaterThan, LessThan.
      now rewrite (sameCurrency_sym (currency b)), E.
  - intros H. apply LessThan_true in H; [|assumption..]. lia.
  - intros H1 H2. apply LessThan_true in H1; [|assumption..].
    apply LessThan_true in H2; [|assumption..].
    apply LessThan_true; [assumption..|].
    destruct H1 as [E1 [S1 L1]], H2 as [E2 [S2 L2]].
    repeat split; [congruence | assumption | lia].
  - intros H. apply LessThan_true in H; [|assumption..].
    destruct H as [E [S L]].
    rewrite <- (Money_eta a), <- (Money_eta b), E.
    destruct (Money_compare_amounts (amount b) (amount a) (currency b) Hb Ha)
      as [_ [-> _]].
    rewrite <- E, S. f_equal. lia.
Qed.

Lemma LessThan_strict_order_witness :
  LessThan (New 700 (mkCurrency "USD" 2 "$")) (New 500 (mkCurrency "USD" 2 "$"))
  = Ok false.
Proof.
  assert (Ha : in_int64 (amount (New 500 (mkCurrency "USD" 2 "$"))))
    by (unfold in_int64, MinInt64, MaxInt64; cbn; lia).
  assert (Hb : in_int64 (amount (New 700 (mkCurrency "USD" 2 "$"))))
    by (unfold in_int64, MinInt64, MaxInt64; cbn; lia).
  destruct (LessThan_strict_order _ _ _ Ha Hb Ha) as [_ [_ [_ Hasym]]].
  apply Hasym. reflexivity.
Defined.

(** ** Rendering of the amount *)

Section AmountRendering.

Lemma parseUint_zeros n : forall a, parseUint_acc (repeat_nat "0" n) a = a * 10 ^ Z.of_nat n.
Proof.
  induction n as [|n IH]; intros a; [cbn; lia|].
  cbn [repeat_nat append parseUint_acc]. rewrite IH.
  rewrite Nat2Z.inj_succ, Z.pow_succ_r by lia.
  change (Z.of_nat (nat_of_ascii "0") - 48) with 0. lia.
Qed.

Lemma all_digits_zeros n : all_digits (repeat_nat "0" n) = true.
Proof. induction n as [|n IH]; [reflexivity|]. cbn [repeat_nat append all_digits]. exact IH. Qed.

End AmountRendering.

(** X20: for an [int64] amount in a currency of positive scale, the rendered
    amount is the integer part (grouped when a thousands separator is
    configured), the decimal separator and a fractional part of exactly
    [scale] digits; the integer and fractional digits together consist of
    decimal digits only and read back as the magnitude of the amount. *)
Theorem amountText_denotes (m : Money) (cfg : FormatConfig)
  (Hm : in_int64 (amount m)) (Hs : 0 < Scale (currency m)) :
  exists intPart fracPart,
    splitAmount (absInt64String (amount m)) (Scale (currency m)) = (intPart, fracPart)
    /\ len fracPart = Scale (currency m)
    /\ 1 <= len intPart
    /\ all_digits (intPart ++ fracPart) = true
    /\ parseUint (intPart ++ fracPart) = Z.abs (amount m)
    /\ amountText m cfg =
         (if (ThousandsSeparator cfg =? "")%string then intPart
          else groupThousands intPart (ThousandsSeparator cfg))
         ++ DecimalSeparator cfg ++ fracPart.
Proof.
  destruct (splitAmount_cut (absInt64String (amount m)) (Scale (currency m)) Hs)
    as [Hcat [Hfrac Hint]].
  assert (Hdig : parseUint (absInt64String (amount m)) = Z.abs (amount m)
                 /\ all_digits (absInt64String (amount m)) = true).
  { rewrite absInt64String_abs by assumption. unfold FormatUint.
    apply formatUint_fuel_digits.
    change (10 ^ Z.of_nat 20) with 100000000000000000000. int64_bounds. lia. }
  destruct Hdig as [Hparse Hall].
  unfold amountText.
  destruct (splitAmount (absInt64String (amount m)) (Scale (currency m)))
    as [intPart fracPart]. cbn [fst snd] in *.
  exists intPart, fracPart. split; [reflexivity|]. split; [exact Hfrac|].
  split; [lia|].
  assert (Hpad : all_digits (intPart ++ fracPart) = true
                 /\ parseUint (intPart ++ fracPart) = Z.abs (amount m)).
  { rewrite Hcat.
    destruct (len (absInt64String (amount m)) <=? Scale (currency m));
      [|now split].
    unfold Repeat, parseUint. rewrite all_digits_app, all_digits_zeros.
    rewrite parseUint_acc_app, parseUint_zeros. cbn [andb Z.mul].
    split; [exact Hall | exact Hparse]. }
  destruct Hpad as [Hpa Hpp]. split; [exact Hpa|]. split; [exact Hpp|].
  assert (Hne : (fracPart =? "")%string = false).
  { apply String.eqb_neq. apply nonempty_len. lia. }
  rewrite Hne. cbn [negb].
  now destruct (ThousandsSeparator cfg =? "")%string.
Qed.

Lemma amountText_denotes_witness :
  exists intPart fracPart,
    splitAmount (absInt64String (-5)) 2 = (intPart, fracPart)
    /\ parseUint (intPart ++ fracPart) = 5
    /\ amountText (New (-5) (mkCurrency "USD" 2 "$")) init = intPart ++ "." ++ fracPart.
Proof.
  assert (Hm : in_int64 (amount (New (-5) (mkCurrency "USD" 2 "$"))))
    by (unfold in_int64, MinInt64, MaxInt64; cbn; lia).
  assert (Hs : 0 < Scale (currency (New (-5) (mkCurrency "USD" 2 "$")))) by (cbn; lia).
  destruct (amountText_denotes (New (-5) (mkCurrency "USD" 2 "$")) init Hm Hs)
    as [i [f [Hsplit [_ [_ [_ [Hparse Htext]]]]]]].
  exists i, f. split; [exact Hsplit|]. split; [exact Hparse | exact Htext].
Defined.

(** X21: the sign is the only difference between the renderings of an amount
    and of its negation: for [0 < a <= MaxInt64], whenever [Format] renders
    [a] as a text, it renders [-a], in the same currency and configuration,
    as "-" followed by that text. *)
Theorem Format_negation (a : Z) (c : Currency) (cfg : FormatConfig) (text : string)
  (Ha : 0 < a <= MaxInt64) (Hfmt : Format (New a c) cfg = Ok text) :
  Format (New (- a) c) cfg = Ok ("-" ++ text).
Proof.
  assert (Hin : in_int64 a) by (int64_bounds; lia).
  assert (Hin' : in_int64 (- a)) by (int64_bounds; lia).
  assert (Hamt : amountText (New (- a) c) cfg = amountText (New a c) cfg).
  { unfold amountText, New. cbn [amount currency].
    rewrite !absInt64String_abs by assumption. now rewrite Z.abs_opp. }
  unfold Format in *. destruct (validateFormat cfg); [discriminate|].
  unfold formatWithConfig in *. rewrite Hamt.
  cbn [New amount currency] in *.
  destruct (formatSymbol c cfg) as [symbol | e]; [|discriminate].
  cbn [bind] in *. unfold signPrefix in *.
  destruct (Z.ltb_spec a 0); [lia|]. destruct (Z.ltb_spec (- a) 0); [|lia].
  destruct (SymbolPosition cfg =? SymbolSuffix); injection Hfmt as <-; reflexivity.
Qed.

Lemma Format_negation_witness :
  Format (New (- 105) (mkCurrency "USD" 2 "$")) init = Ok ("-" ++ "$1.05").
Proof.
  apply (Format_negation 105 (mkCurrency "USD" 2 "$") init "$1.05").
  - unfold MaxInt64. lia.
  - reflexivity.
Defined.

(** ** Division at its edges *)

(** X22: [calc.Div] divides zero by any non-zero [int64] divisor to zero at
    every scale from 0 to 18, and fails at every other scale whatever the
    operands. *)
Theorem Div_edges (v d s : Z) (Hd : in_int64 d) :
  (d <> 0 -> 0 <= s <= 18 -> calc.Div 0 d s = Ok 0) /\
  (s < 0 \/ 18 < s -> exists e, calc.Div v d s = Err e).
Proof.
  split.
  - intros Hnz Hs. unfold calc.Div.
    rewrite newAmount_ok by (int64_bounds; lia). cbn [bind].
    rewrite New_ok by (try assumption; lia). cbn [calc.lift map_err bind].
    unfold calc.divide, decimal.QuoExact, decimal.MinScale, decimal.MaxScale.
    cbn [calc.dec of_signed decimal.coef decimal.scale Z.abs Z.eqb].
    destruct (Z.ltb_spec s 0); [lia|]. destruct (Z.gtb_spec s 19); [lia|]. cbn [orb].
    destruct (Z.eqb_spec (Z.abs d) 0); [lia|].
    rewrite Z.sub_0_r, Z.max_id.
    rewrite newSafe_ok by (unfold decimal.maxFint; lia).
    cbn [calc.lift map_err bind calc.dec decimal.newUnsafe Z.eqb].
    unfold calc.Round.
    change (decimal.newUnsafe false 0 s) with (decimal.mkDecimal false 0 s).
    rewrite roundToMinor_same_scale by (unfold decimal.maxFint; lia).
    reflexivity.
  - intros Hs. unfold calc.Div.
    destruct (calc.newAmount v s) as [da | e]; [|now exists e]. cbn [bind].
    destruct (calc.lift (decimal.New d 0)) as [m | e]; [|now exists e]. cbn [bind].
    destruct (calc.divide da m s) as [out | e]; [|now exists e]. cbn [bind].
    unfold calc.Round. rewrite roundToMinor_bad_scale by assumption. eauto.
Qed.

Lemma Div_edges_witness :
  calc.Div 0 3 2 = Ok 0 /\ exists e, calc.Div 2100 3 19 = Err e.
Proof.
  assert (Hd : in_int64 3) by (unfold in_int64, MinInt64, MaxInt64; lia).
  split.
  - destruct (Div_edges 0 3 2 Hd) as [Hzero _]. apply Hzero; lia.
  - destruct (Div_edges 2100 3 19 Hd) as [_ Hbad]. apply Hbad. lia.
Defined.

(** ** Re-encoding and magnitudes *)

(** X23: [calc.Round] re-encodes a decimal as minor units of the target
    scale.  A decimal that already has the target scale, between 0 and 18, is
    returned as its signed coefficient when that lies in [int64] and is
    rejected with the overflow error otherwise; at a target scale below 0 or
    above 18 every decimal is rejected with the overflow error. *)
Theorem Round_minor_units (n : bool) (c s : Z) (d : decimal.Decimal)
  (Hc : 0 <= c <= decimal.maxFint) :
  (0 <= s <= 18 ->
     calc.Round (decimal.mkDecimal n c s) s =
       if in_int64b (minor n c) then Ok (minor n c) else Err calc.errOverflow) /\
  (s < 0 \/ 18 < s -> calc.Round d s = Err calc.errOverflow).
Proof.
  split.
  - intros Hs. unfold calc.Round. now rewrite roundToMinor_same_scale.
  - intros Hs. unfold calc.Round. now apply roundToMinor_bad_scale.
Qed.

Lemma Round_minor_units_witness :
  calc.Round (decimal.mkDecimal true 9223372036854775808 2) 2 = Ok MinInt64 /\
  calc.Round (decimal.mkDecimal true 9223372036854775809 2) 2 = Err calc.errOverflow /\
  calc.Round (decimal.mkDecimal false 0 2) 19 = Err calc.errOverflow.
Proof.
  assert (H1 : 0 <= 9223372036854775808 <= decimal.maxFint)
    by (unfold decimal.maxFint; lia).
  assert (H2 : 0 <= 9223372036854775809 <= decimal.maxFint)
    by (unfold decimal.maxFint; lia).
  split; [|split].
  - destruct (Round_minor_units true 9223372036854775808 2
                (decimal.mkDecimal false 0 2) H1) as [Hfit _].
    rewrite Hfit by lia. reflexivity.
  - destruct (Round_minor_units true 9223372036854775809 2
                (decimal.mkDecimal false 0 2) H2) as [Hfit _].
    rewrite Hfit by lia. reflexivity.
  - destruct (Round_minor_units true 9223372036854775808 19
                (decimal.mkDecimal false 0 2) H1) as [_ Hbad].
    apply Hbad. lia.
Defined.

(** X24: [absInt64] returns the absolute value of every [int64] as an
    unsigned 64-bit number: the result is the magnitude, between 0 and 2^63,
    and it is 0 only for 0. *)
Theorem absInt64_magnitude (x : Z) (Hx : in_int64 x) :
  calc.absInt64 x = Z.abs x /\
  0 <= calc.absInt64 x <= 9223372036854775808 /\
  (calc.absInt64 x = 0 <-> x = 0).
Proof.
  rewrite absInt64_abs by assumption. int64_bounds. lia.
Qed.

Lemma absInt64_magnitude_witness :
  calc.absInt64 (-5) = 5 /\ calc.absInt64 MinInt64 = 9223372036854775808.
Proof.
  assert (H5 : in_int64 (-5)) by (unfold in_int64, MinInt64, MaxInt64; lia).
  assert (Hm : in_int64 MinInt64) by (unfold in_int64, MinInt64, MaxInt64; lia).
  split.
  - exact (proj1 (absInt64_magnitude (-5) H5)).
  - exact (proj1 (absInt64_magnitude MinInt64 Hm)).
Defined.
